(** * node-mcf: the Minecraft/Forge server wrapper (class [Mc])

    A shallow embedding of the supervisor class of the repository
    (revision 1.2.0): the regular-expression table and [getRegexMatches],
    the console handler installed by [startServer], the command channel
    ([isPtyRunning], [writeToPty], [sendCommand], [op], [deop]),
    [removeWorld] and the mod scanner [scanForNewMods].

    JavaScript strings are Rocq strings of one-byte characters, arrays are
    lists, objects with a fixed shape are records.  Mutable state (the
    [pty] object, the [lastIndex] of the shared regular expressions, the
    [mods] array) is threaded explicitly; what the program sends to the
    outside (events emitted, bytes written to the terminal, log lines,
    file-system calls) is collected in traces. *)

From Stdlib Require Import Ascii String Arith Bool Lia.
From stdpp Require Import base option list strings.

Local Open Scope string_scope.
Local Open Scope list_scope.
Local Open Scope nat_scope.

(** ** Characters and strings *)

Module Chars.

Definition code (c : ascii) : nat := nat_of_ascii c.

Definition between (lo hi : nat) (c : ascii) : bool :=
  (lo <=? code c) && (code c <=? hi).

Definition is_digit : ascii -> bool := between 48 57.
Definition is_upper : ascii -> bool := between 65 90.
Definition is_lower : ascii -> bool := between 97 122.
Definition is_letter (c : ascii) : bool := is_upper c || is_lower c.

(** [\w] is [[A-Za-z0-9_]]. *)
Definition is_word (c : ascii) : bool :=
  is_letter c || is_digit c || (code c =? 95).

(** [\s]: tab, line feed, vertical tab, form feed, carriage return, space
    and the no-break space (the white space of the one-byte range). *)
Definition is_space (c : ascii) : bool :=
  between 9 13 c || (code c =? 32) || (code c =? 160).

Definition chr (n : nat) (c : ascii) : bool := code c =? n.

(** A literal letter under the [i] flag: both cases match.  [n] is the
    code of the upper-case letter. *)
Definition is_ci (n : nat) (c : ascii) : bool :=
  (code c =? n) || (code c =? n + 32).

Definition backslash : nat := 92.
Definition slash : nat := 47.
Definition dot : nat := 46.
Definition colon : nat := 58.
Definition lbracket : nat := 91.
Definition rbracket : nat := 93.
Definition lparen : nat := 40.
Definition rparen : nat := 41.
Definition bang : nat := 33.
Definition blank : nat := 32.

End Chars.

Module Str.

(** The longest prefix of [s] whose characters satisfy [p], and the rest:
    what a greedy [[...]*] consumes. *)
Fixpoint span (p : ascii -> bool) (s : string) : string * string :=
  match s with
  | EmptyString => (EmptyString, EmptyString)
  | String c s' =>
      if p c then let '(run, rest) := span p s' in (String c run, rest)
      else (EmptyString, s)
  end.

Fixpoint drop (n : nat) (s : string) : string :=
  match n, s with
  | 0, _ => s
  | S n', String _ s' => drop n' s'
  | S _, EmptyString => EmptyString
  end.

Fixpoint take (n : nat) (s : string) : string :=
  match n, s with
  | S n', String c s' => String c (take n' s')
  | _, _ => EmptyString
  end.

Fixpoint filter (p : ascii -> bool) (s : string) : string :=
  match s with
  | EmptyString => EmptyString
  | String c s' => if p c then String c (filter p s') else filter p s'
  end.

(** [strip_prefix pat s] is the rest of [s] after [pat], when [s] starts
    with [pat]. *)
Fixpoint strip_prefix (pat s : string) : option string :=
  match pat, s with
  | EmptyString, _ => Some s
  | String a pat', String c s' =>
      if Ascii.eqb a c then strip_prefix pat' s' else None
  | String _ _, EmptyString => None
  end.

(** [s.replace(pat, '')] for a string pattern: only the first occurrence
    is removed. *)
Fixpoint remove_first (pat s : string) : string :=
  match strip_prefix pat s with
  | Some rest => rest
  | None =>
      match s with
      | EmptyString => EmptyString
      | String c s' => String c (remove_first pat s')
      end
  end.

Definition one (c : ascii) : string := String c EmptyString.

End Str.

(** ** Regular expressions

    A [RegExp] object is its pattern, compiled to a function that matches
    at the start of a string and returns the length of the match and the
    captured groups, its [g] flag and its mutable [lastIndex]. *)

Definition captures := list (option string).

Record RegExp := mkRegExp {
  re_here : string -> option (nat * captures);
  re_global : bool;
  lastIndex : nat
}.

Definition set_lastIndex (r : RegExp) (i : nat) : RegExp :=
  {| re_here := re_here r; re_global := re_global r; lastIndex := i |}.

(** JavaScript values, as far as the program handles them. *)
#[local] Set Warnings "-register-all".
Inductive jsval :=
| JUndefined
| JNull
| JBool (b : bool)
| JNumber (n : nat)
| JString (s : string)
| JArray (l : list jsval)
| JRegExp (r : RegExp).

Definition instanceof_RegExp (v : jsval) : bool :=
  match v with JRegExp _ => true | _ => false end.

Definition of_capture (c : option string) : jsval :=
  match c with Some s => JString s | None => JUndefined end.

(** The leftmost position [>= i] at which the pattern matches. *)
Fixpoint search (here : string -> option (nat * captures)) (s : string)
    (i : nat) : option (nat * nat * captures) :=
  match here s with
  | Some (len, g) => Some (i, len, g)
  | None =>
      match s with
      | EmptyString => None
      | String _ s' => search here s' (S i)
      end
  end.

(** [r.exec(s)]: the match array ([match[0]] is the matched text,
    [match[k]] the k-th group) or [None] for [null], and the object with
    its [lastIndex] updated.  A failed match resets [lastIndex]; a
    successful match of a global expression moves it behind the match. *)
Definition exec (r : RegExp) (s : string) : option (list jsval) * RegExp :=
  let start := if re_global r then lastIndex r else 0 in
  if String.length s <? start then (None, set_lastIndex r 0)
  else
    match search (re_here r) (Str.drop start s) start with
    | None => (None, set_lastIndex r 0)
    | Some (i, len, g) =>
        (Some (JString (Str.take len (Str.drop i s)) :: map of_capture g),
         if re_global r then set_lastIndex r (i + len) else r)
    end.

(** [s.replace(r, '')] for a global expression: every match is removed,
    scanning from the left; [skip] counts the characters of the current
    match still to drop. *)
Fixpoint remove_matches (here : string -> option (nat * captures))
    (skip : nat) (s : string) : string :=
  match s with
  | EmptyString => EmptyString
  | String c s' =>
      match skip with
      | S k => remove_matches here k s'
      | 0 =>
          match here s with
          | Some (S n, _) => remove_matches here n s'
          | _ => String c (remove_matches here 0 s')
          end
      end
  end.

(** *** The RegEx table *)

Module regex.

Import Chars.

(** [ctags: /\[([\w\d\s\\/.:]+)\]/gi] *)
Definition ctags_class (c : ascii) : bool :=
  is_word c || is_digit c || is_space c
  || chr backslash c || chr slash c || chr dot c || chr colon c.

Definition ctags_here (s : string) : option (nat * captures) :=
  match s with
  | String c0 s1 =>
      if chr lbracket c0 then
        match Str.span ctags_class s1 with
        | (String r0 run, String c1 _) =>
            if chr rbracket c1
            then Some (2 + String.length (String r0 run), [Some (String r0 run)])
            else None
        | _ => None
        end
      else None
  | EmptyString => None
  end.

(** [cinfo: /(\[[0-9:]+\]) (\[[\[A-Z\s\\/.\]]+: )/gi] *)
Definition cinfo_class1 (c : ascii) : bool := is_digit c || chr colon c.

Definition cinfo_class2 (c : ascii) : bool :=
  chr lbracket c || is_letter c || is_space c
  || chr backslash c || chr slash c || chr dot c || chr rbracket c.

Definition cinfo_here (s : string) : option (nat * captures) :=
  match s with
  | String c0 s1 =>
      if chr lbracket c0 then
        match Str.span cinfo_class1 s1 with
        | (String r0 run1, String c1 (String c2 (String c3 s2))) =>
            if chr rbracket c1 && chr blank c2 && chr lbracket c3 then
              match Str.span cinfo_class2 s2 with
              | (String q0 run2, String c4 (String c5 _)) =>
                  if chr colon c4 && chr blank c5 then
                    let g1 := String c0 (String r0 run1 ++ Str.one c1) in
                    let g2 :=
                      String c3 (String q0 run2 ++ String c4 (Str.one c5)) in
                    Some (String.length g1 + 1 + String.length g2,
                          [Some g1; Some g2])
                  else None
              | _ => None
              end
            else None
        | _ => None
        end
      else None
  | EmptyString => None
  end.

(** [cdone: /Done \(([0-9\.]+)s\)\!/gi] *)
Definition cdone_class (c : ascii) : bool := is_digit c || chr dot c.

Definition cdone_here (s : string) : option (nat * captures) :=
  match s with
  | String d (String o (String n (String e (String sp (String lp s1))))) =>
      if is_ci 68 d && is_ci 79 o && is_ci 78 n && is_ci 69 e
         && chr blank sp && chr lparen lp then
        match Str.span cdone_class s1 with
        | (String r0 run, String c1 (String c2 (String c3 _))) =>
            if is_ci 83 c1 && chr rparen c2 && chr bang c3
            then Some (6 + String.length (String r0 run) + 3,
                       [Some (String r0 run)])
            else None
        | _ => None
        end
      else None
  | _ => None
  end.

(** The three objects of the table, at a given [lastIndex]. *)
Definition ctags (i : nat) : RegExp := mkRegExp ctags_here true i.
Definition cinfo (i : nat) : RegExp := mkRegExp cinfo_here true i.
Definition cdone (i : nat) : RegExp := mkRegExp cdone_here true i.

End regex.

(** ** [getRegexMatches] *)

(** The body of [while (match) { ... match = regex.exec(string) }].  The
    loop has no bound of its own (an expression without the [g] flag that
    matches once matches forever): [fuel] bounds the number of tests of
    the loop condition, and [None] is a run that needs more. *)
Fixpoint getRegexMatches_loop (fuel : nat) (r : RegExp) (s : string)
    (matches : list jsval) (match_ : option (list jsval))
    : option (list jsval * RegExp) :=
  match fuel with
  | 0 => None
  | S fuel' =>
      match match_ with
      | None => Some (matches, r)
      | Some m =>
          let matches' :=
            if 2 <? length m
            then matches ++ [JArray (drop 1 m)]
            else matches ++ [nth 1 m JUndefined] in
          let '(next, r') := exec r s in
          getRegexMatches_loop fuel' r' s matches' next
      end
  end.

(** The result and the first argument after the call (its [lastIndex] is
    written by [exec]). *)
Definition getRegexMatches (fuel : nat) (regex : jsval) (s : string)
    : option (jsval * jsval) :=
  match regex with
  | JRegExp r =>
      let '(m, r') := exec r s in
      match getRegexMatches_loop fuel r' s [] m with
      | Some (matches, r'') => Some (JArray matches, JRegExp r'')
      | None => None
      end
  | _ => Some (JString "ERROR", regex)
  end.

(** ** Results of calls that may throw *)

Inductive exn :=
| TypeError (msg : string)
| ENOTDIR (path : string)
| ENOTEMPTY (path : string)
| ENOENT (path : string).

(** [Ok x]: the call returns [x].  [Throw e]: it throws [e].  [Diverge]: the
    fuel given to a loop was used up. *)
Inductive result (A : Type) :=
| Ok (x : A)
| Throw (e : exn)
| Diverge.

Arguments Ok {A} x.
Arguments Throw {A} e.
Arguments Diverge {A}.

Definition bind {A B} (c : result A) (k : A -> result B) : result B :=
  match c with
  | Ok x => k x
  | Throw e => Throw e
  | Diverge => Diverge
  end.

Notation "'let*' p ':=' c 'in' k" := (bind c (fun p => k))
  (at level 10, p pattern, c at level 100, k at level 200).

Definition of_fuel {A} (o : option A) : result A :=
  match o with Some x => Ok x | None => Diverge end.

(** ** The class [Mc] *)

(** A record of [mods.json]. *)
Record ModRecord := mkMod { filename : string; hash : string }.

(** What [self.events.emit(name, arg)] is called with. *)
Inductive payload :=
| PString (s : string)
| PArray (res : list jsval)
| PMods (mods : list ModRecord).

Definition emission : Type := string * payload.

(** The calls into [fs] that change the disk. *)
Inductive fs_call :=
| WriteFile (path data : string)
| UnlinkSync (path : string)
| RmdirSync (path : string)
| Rename (src dst : string).

(** The terminal returned by [spawn('java', opts, {..., cwd: dir})]. *)
Record Term := mkTerm { term_opts : list string; term_cwd : string }.

(** The [lastIndex] of the three expressions of the table: the only part
    of the table that changes. *)
Record RegexState := mkRegexState {
  ctags_lastIndex : nat;
  cinfo_lastIndex : nat;
  cdone_lastIndex : nat
}.

Record Mc := mkMc {
  minecraft_dir : string;
  minecraft_forge : string;
  pty_running : jsval;            (* this.pty.running *)
  pty_state : option Term;        (* this.pty.state *)
  mods : list ModRecord;          (* this.mods *)
  regex_state : RegexState;
  emitted : list emission;        (* calls of self.events.emit, oldest first *)
  pty_input : list string;        (* calls of term.write, oldest first *)
  logfile : list string;          (* calls of logfile.write, oldest first *)
  fs_calls : list fs_call         (* oldest first *)
}.

(** [path.join(dir, name)] for a normalised [dir] and a plain [name]. *)
Definition path_join (dir name : string) : string := dir ++ "/" ++ name.

(** The constructor, after it has loaded [mods.json] (or found none: [[]]). *)
Definition new_Mc (dir forge : string) (loaded : list ModRecord) : Mc :=
  {| minecraft_dir := dir; minecraft_forge := forge;
     pty_running := JUndefined; pty_state := None;
     mods := loaded;
     regex_state := mkRegexState 0 0 0;
     emitted := []; pty_input := []; logfile := []; fs_calls := [] |}.

Definition emit (name : string) (arg : payload) (mc : Mc) : Mc :=
  {| minecraft_dir := minecraft_dir mc; minecraft_forge := minecraft_forge mc;
     pty_running := pty_running mc; pty_state := pty_state mc;
     mods := mods mc; regex_state := regex_state mc;
     emitted := emitted mc ++ [(name, arg)];
     pty_input := pty_input mc; logfile := logfile mc;
     fs_calls := fs_calls mc |}.

Definition term_write (data : string) (mc : Mc) : Mc :=
  {| minecraft_dir := minecraft_dir mc; minecraft_forge := minecraft_forge mc;
     pty_running := pty_running mc; pty_state := pty_state mc;
     mods := mods mc; regex_state := regex_state mc;
     emitted := emitted mc;
     pty_input := pty_input mc ++ [data]; logfile := logfile mc;
     fs_calls := fs_calls mc |}.

Definition logfile_write (data : string) (mc : Mc) : Mc :=
  {| minecraft_dir := minecraft_dir mc; minecraft_forge := minecraft_forge mc;
     pty_running := pty_running mc; pty_state := pty_state mc;
     mods := mods mc; regex_state := regex_state mc;
     emitted := emitted mc;
     pty_input := pty_input mc; logfile := logfile mc ++ [data];
     fs_calls := fs_calls mc |}.

Definition fs_do (c : fs_call) (mc : Mc) : Mc :=
  {| minecraft_dir := minecraft_dir mc; minecraft_forge := minecraft_forge mc;
     pty_running := pty_running mc; pty_state := pty_state mc;
     mods := mods mc; regex_state := regex_state mc;
     emitted := emitted mc;
     pty_input := pty_input mc; logfile := logfile mc;
     fs_calls := fs_calls mc ++ [c] |}.

Definition set_pty (r : jsval) (t : option Term) (mc : Mc) : Mc :=
  {| minecraft_dir := minecraft_dir mc; minecraft_forge := minecraft_forge mc;
     pty_running := r; pty_state := t;
     mods := mods mc; regex_state := regex_state mc;
     emitted := emitted mc;
     pty_input := pty_input mc; logfile := logfile mc;
     fs_calls := fs_calls mc |}.

Definition set_regex_state (rs : RegexState) (mc : Mc) : Mc :=
  {| minecraft_dir := minecraft_dir mc; minecraft_forge := minecraft_forge mc;
     pty_running := pty_running mc; pty_state := pty_state mc;
     mods := mods mc; regex_state := rs;
     emitted := emitted mc;
     pty_input := pty_input mc; logfile := logfile mc;
     fs_calls := fs_calls mc |}.

Definition set_mods (l : list ModRecord) (mc : Mc) : Mc :=
  {| minecraft_dir := minecraft_dir mc; minecraft_forge := minecraft_forge mc;
     pty_running := pty_running mc; pty_state := pty_state mc;
     mods := l; regex_state := regex_state mc;
     emitted := emitted mc;
     pty_input := pty_input mc; logfile := logfile mc;
     fs_calls := fs_calls mc |}.

Definition open_logfile (mc : Mc) : Mc :=
  {| minecraft_dir := minecraft_dir mc; minecraft_forge := minecraft_forge mc;
     pty_running := pty_running mc; pty_state := pty_state mc;
     mods := mods mc; regex_state := regex_state mc;
     emitted := emitted mc;
     pty_input := pty_input mc; logfile := [];
     fs_calls := fs_calls mc |}.

(** Truthiness of the values above. *)
Definition truthy (v : jsval) : bool :=
  match v with
  | JUndefined | JNull => false
  | JBool b => b
  | JNumber n => negb (n =? 0)
  | JString s => negb (String.eqb s "")
  | JArray _ | JRegExp _ => true
  end.

(** *** The process supervisor *)

Definition CR : string := Str.one (ascii_of_nat 13).
Definition LF : string := Str.one (ascii_of_nat 10).

(** The string ['\u001b[m>']. *)
Definition ESC_m : string := String (ascii_of_nat 27) "[m>".

(** [isPtyRunning] *)
Definition isPtyRunning (mc : Mc) : bool :=
  if truthy (pty_running mc) then true else false.

(** [writeToPty]: the returned boolean and the object afterwards. *)
Definition writeToPty (data : string) (mc : Mc) : result (bool * Mc) :=
  if isPtyRunning mc then
    match pty_state mc with
    | Some term => Ok (true, term_write (data ++ CR) mc)
    | None => Throw (TypeError "Cannot read property 'write' of undefined")
    end
  else Ok (false, mc).

(** [sendCommand] *)
Definition sendCommand (cmd : string) (mc : Mc) : result (bool * Mc) :=
  let* (res, mc') := writeToPty cmd mc in
  if negb res then Ok (false, mc') else Ok (true, mc').

(** [op] and [deop] *)
Definition op (player : string) (mc : Mc) : result (bool * Mc) :=
  if negb (isPtyRunning mc) then Ok (false, mc)
  else sendCommand ("op " ++ player) mc.

Definition deop (player : string) (mc : Mc) : result (bool * Mc) :=
  if negb (isPtyRunning mc) then Ok (false, mc)
  else sendCommand ("deop " ++ player) mc.

(** [startServer(opts, dir)], as far as the terminal is concerned: the log
    stream is opened, the terminal is spawned, the [pty] object is set and
    the [starting] status is emitted.  (The listeners of [populateEvents],
    the mod scan and the EULA file are not part of this function here; the
    scan is [scanForNewMods] below.) *)
Definition startServer (opts : option (list string)) (dir : option string)
    (mc : Mc) : Mc :=
  let opts :=
    match opts with
    | Some o => o
    | None =>
        ["-jar"; ("forge-" ++ minecraft_forge mc ++ "-universal.jar")%string;
         "nogui"]
    end in
  let dir := match dir with Some d => d | None => "./minecraft" end in
  let mc := open_logfile mc in
  let term := mkTerm opts dir in
  let mc := set_pty (JBool true) (Some term) mc in
  emit "status" (PString "starting") mc.

(** [res.push(cinfo)]: only an array has [push]. *)
Definition push (res : jsval) (x : jsval) : result (list jsval) :=
  match res with
  | JArray l => Ok (l ++ [x])
  | _ => Throw (TypeError "res.push is not a function")
  end.

Definition is_null (v : jsval) : bool :=
  match v with JNull => true | _ => false end.

Definition is_string (s : string) (v : jsval) : bool :=
  match v with JString s' => String.eqb s' s | _ => false end.

(** [res[0]] *)
Definition first (res : list jsval) : jsval := nth 0 res JUndefined.

(** The test [res[0] !== null && res[0] !== ' ' && res[0] !== '']. *)
Definition console_guard (res : list jsval) : bool :=
  negb (is_null (first res)) && negb (is_string " " (first res))
  && negb (is_string "" (first res)).

(** [data.replace(regex.cinfo, '').replace(/\r/g, '').replace(/\n/g, '')
    .replace('\u001b[m>', '')] *)
Definition clean (data : string) : string :=
  Str.remove_first ESC_m
    (Str.filter (fun c => negb (Chars.chr 10 c))
       (Str.filter (fun c => negb (Chars.chr 13 c))
          (remove_matches regex.cinfo_here 0 data))).

(** The handler of [term.on('data', ...)].  The loop of [getRegexMatches]
    gets one test of its condition per character of the chunk and two
    more. *)
Definition on_data (data : string) (mc : Mc) : result Mc :=
  let rs := regex_state mc in
  let* (res, ctags') :=
    of_fuel (getRegexMatches (String.length data + 2)
               (JRegExp (regex.ctags (ctags_lastIndex rs))) data) in
  let ctags_i :=
    match ctags' with JRegExp r => lastIndex r | _ => ctags_lastIndex rs end in
  let cinfo := clean data in
  let* res := push res (JString cinfo) in
  let mc := if console_guard res then emit "console" (PArray res) mc else mc in
  let '(isDone, cdone') := exec (regex.cdone (cdone_lastIndex rs)) cinfo in
  let mc := set_regex_state (mkRegexState ctags_i 0 (lastIndex cdone')) mc in
  let mc :=
    match isDone with
    | Some _ => emit "status" (PString "up") mc
    | None => mc
    end in
  Ok (logfile_write (data ++ LF) mc).

(** The handler of [term.on('exit', ...)].  Its first statement is
    [fs.unlinkSync(path.join(self.minecraft.dir, 'node-mcf.log'))], while the
    log was opened by [startServer] under its own [dir]: [log_there] tells
    whether a file is at the path that is unlinked.  When none is,
    [fs.unlinkSync] throws, and the handler ends there: no status is
    emitted and the [pty] object stays as it is. *)
Definition on_exit (log_there : bool) (mc : Mc) : result Mc :=
  let log := path_join (minecraft_dir mc) "node-mcf.log" in
  if log_there then
    let mc := fs_do (UnlinkSync log) mc in
    let mc := emit "status" (PString "down") mc in
    Ok (set_pty (JBool false) None mc)
  else Throw (ENOENT log).

(** *** The disk, as the class reads it *)

(** A regular file (for a mod, with the SHA-512 digest of its bytes in
    hexadecimal, which is all the class reads of it) or a directory with its
    entries. *)
Inductive node :=
| File (sha512 : string)
| Dir (entries : list (string * node)).

Definition isDirectory (n : node) : bool :=
  match n with Dir _ => true | File _ => false end.

(** The entry called [name] of a directory. *)
Fixpoint entry (name : string) (entries : list (string * node)) : option node :=
  match entries with
  | [] => None
  | (n, x) :: rest => if String.eqb n name then Some x else entry name rest
  end.

(** [fs.existsSync(path.join(dir, name))], for the entries of [dir]. *)
Definition existsSync (entries : list (string * node)) (name : string) : bool :=
  match entry name entries with Some _ => true | None => false end.

(** *** [removeWorld] *)

Record response := mkResponse { success : bool; reason : option string }.

(** [deleteFolderRecursive(path)], where [n] is what is at [path]: the calls
    of [fs.unlinkSync] and [fs.rmdirSync] in order, and what is left at
    [path] ([None]: nothing).  [fs.readdirSync] throws on a regular file and
    [fs.rmdirSync] on a directory that still has entries. *)
Fixpoint deleteFolderRecursive (path : string) (n : node)
    : result (option node * list fs_call) :=
  match n with
  | File _ => Throw (ENOTDIR path)
  | Dir entries =>
      let* (remaining, calls) :=
        (fix forEach (es : list (string * node))
           : result (list (string * node) * list fs_call) :=
           match es with
           | [] => Ok ([], [])
           | (file, child) :: es' =>
               let curPath := (path ++ "/" ++ file)%string in
               let* (rem, c1) :=
                 match child with
                 | Dir _ => deleteFolderRecursive curPath child
                 | File _ => Ok (None, [UnlinkSync curPath])
                 end in
               let* (rest, c2) := forEach es' in
               Ok (match rem with
                   | Some x => (file, x) :: rest
                   | None => rest
                   end, c1 ++ c2)
           end) entries in
      match remaining with
      | [] => Ok (None, calls ++ [RmdirSync path])
      | _ :: _ => Throw (ENOTEMPTY path)
      end
  end.

Definition fs_do_all (calls : list fs_call) (mc : Mc) : Mc :=
  fold_left (fun m c => fs_do c m) calls mc.

(** [removeWorld(name)], where [world] is what is on the disk at
    [path.join(this.minecraft.dir, name)]: the response, what is left there,
    and the object afterwards. *)
Definition removeWorld (name : string) (world : option node) (mc : Mc)
    : result (response * option node * Mc) :=
  let worldDir := path_join (minecraft_dir mc) name in
  if negb (truthy (JString name)) then
    Ok (mkResponse false (Some "INVOKE"), world, mc)
  else if isPtyRunning mc then
    Ok (mkResponse false (Some "PTY"), world, mc)
  else
    match world with
    | Some n =>
        let* (remaining, calls) := deleteFolderRecursive worldDir n in
        Ok (mkResponse true None, remaining, fs_do_all calls mc)
    | None => Ok (mkResponse false (Some "NOTEXIST"), None, mc)
    end.

(** *** [JSON.stringify] of the mod array *)

Module JSON.

Definition dquote : string := Str.one (ascii_of_nat 34).

Definition hex (n : nat) : string :=
  Str.one (nth n (list_ascii_of_string "0123456789abcdef") "0"%char).

(** One character inside a quoted string: the quote, the backslash and the
    control characters are escaped. *)
Definition escape (c : ascii) : string :=
  let n := Chars.code c in
  if n =? 34 then "\" ++ dquote
  else if n =? 92 then "\\"
  else if n =? 8 then "\b"
  else if n =? 9 then "\t"
  else if n =? 10 then "\n"
  else if n =? 12 then "\f"
  else if n =? 13 then "\r"
  else if n <? 32 then "\u00" ++ hex (n / 16) ++ hex (n mod 16)
  else Str.one c.

Fixpoint quote_body (s : string) : string :=
  match s with
  | EmptyString => EmptyString
  | String c s' => escape c ++ quote_body s'
  end.

Definition quote (s : string) : string := dquote ++ quote_body s ++ dquote.

Definition of_mod (m : ModRecord) : string :=
  "{" ++ quote "filename" ++ ":" ++ quote (filename m) ++ ","
      ++ quote "hash" ++ ":" ++ quote (hash m) ++ "}".

Fixpoint join (l : list string) : string :=
  match l with
  | [] => EmptyString
  | [x] => x
  | x :: rest => x ++ "," ++ join rest
  end.

Definition stringify (l : list ModRecord) : string :=
  "[" ++ join (map of_mod l) ++ "]".

End JSON.

(** *** [scanForNewMods] *)

(** An entry of [modEventQ]. *)
Record ModEvent := mkModEvent { data : ModRecord; event : string }.

(** The deletion pass,
    [for (let mod of self.mods) { if (!fs.existsSync(mloc)) { ...;
    self.mods.splice(i, 1) } i++ }].  The iterator of [for ... of] reads
    [self.mods[k]] at its own position [k] and ends when [k] is past the
    array as it is then.  [entries] are the entries of the mod directory. *)
Fixpoint deletion_loop (fuel : nat) (entries : list (string * node))
    (k i : nat) (mods : list ModRecord) (modEventQ : list ModEvent)
    : option (list ModRecord * list ModEvent) :=
  match fuel with
  | 0 => None
  | S fuel' =>
      match mods !! k with
      | None => Some (mods, modEventQ)
      | Some mod_ =>
          if negb (existsSync entries (filename mod_)) then
            deletion_loop fuel' entries (S k) (S i) (delete i mods)
              (modEventQ ++ [mkModEvent mod_ "modDeletion"])
          else deletion_loop fuel' entries (S k) (S i) mods modEventQ
      end
  end.

(** [mod_installed.index]: an element of [self.mods] has the properties
    [filename] and [hash] and no other. *)
Definition index (m : ModRecord) : jsval := JUndefined.

(** [hash.read()] has ended for the file [mod_], with digest [modHash]: the
    body of [fd.on('end', ...)]. *)
Definition on_end (mod_ modHash : string)
    (st : list ModRecord * list ModEvent)
    : result (list ModRecord * list ModEvent) :=
  let '(mods, modEventQ) := st in
  match head (List.filter (fun obj => String.eqb (filename obj) mod_) mods) with
  | None =>
      let mod_installed := mkMod mod_ modHash in
      Ok (mods ++ [mod_installed],
          modEventQ ++ [mkModEvent mod_installed "modAddition"])
  | Some mod_installed =>
      if negb (String.eqb modHash (hash mod_installed)) then
        (* self.mods[mod_installed.index].hash = modHash *)
        match index mod_installed with
        | JNumber n =>
            match mods !! n with
            | Some r =>
                let r' := mkMod (filename r) modHash in
                Ok (<[n := r']> mods, modEventQ ++ [mkModEvent r' "modUpdated"])
            | None =>
                Throw (TypeError "Cannot set property 'hash' of undefined")
            end
        | _ => Throw (TypeError "Cannot set property 'hash' of undefined")
        end
      else Ok (mods, modEventQ)
  end.

(** [async.each(files, ...)]: the entries of the mod directory in the order
    in which their streams end; directories are skipped. *)
Fixpoint each_file (entries : list (string * node))
    (st : list ModRecord * list ModEvent)
    : result (list ModRecord * list ModEvent) :=
  match entries with
  | [] => Ok st
  | (mod_, n) :: rest =>
      match n with
      | Dir _ => each_file rest st
      | File digest =>
          let* st' := on_end mod_ digest st in
          each_file rest st'
      end
  end.

(** [sendEvents(a, event)] *)
Definition sendEvents (a : list ModEvent) (ev : string) (mc : Mc) : Mc :=
  let data_ :=
    map data (List.filter (fun m => String.eqb (event m) ev) a) in
  match data_ with
  | [] => mc
  | _ :: _ => emit ev (PMods data_) mc
  end.

(** The last callback of [async.each]. *)
Definition scan_finish (modEventQ : list ModEvent) (mc : Mc) : Mc :=
  let clientModsP := path_join (minecraft_dir mc) "clientmods.json" in
  let mc := sendEvents modEventQ "modAddition" mc in
  let mc := sendEvents modEventQ "modDeletion" mc in
  let mc := sendEvents modEventQ "modUpdated" mc in
  let data_ := JSON.stringify (mods mc) in
  let mc := fs_do (WriteFile (path_join (minecraft_dir mc) "mods.json") data_) mc in
  fs_do (WriteFile clientModsP "[]") mc.

(** The two passes over the mod directory: the array and the event queue
    they leave. *)
Definition scan_passes (entries : list (string * node)) (mods : list ModRecord)
    : result (list ModRecord * list ModEvent) :=
  let* st := of_fuel (deletion_loop (S (length mods)) entries 0 0 mods []) in
  each_file entries st.

(** [scanForNewMods()], run to the end of its callbacks.  [entries] are the
    entries of [path.join(this.minecraft.dir, 'mods')], listed in the order
    in which [async.each] sees their hash streams end, which need not be
    the order of [fs.readdir]. *)
Definition scanForNewMods (entries : list (string * node)) (mc : Mc)
    : result Mc :=
  let* (mods', modEventQ) := scan_passes entries (mods mc) in
  Ok (scan_finish modEventQ (set_mods mods' mc)).

(** *** Runs of the supervisor *)

(** What happens to the object from outside: a call of [startServer], a
    chunk of output or the exit of the terminal (with what the disk holds
    then at [path.join(this.minecraft.dir, 'node-mcf.log')]: a file or
    nothing), a call of [sendCommand]. *)
Inductive input :=
| Start (opts : option (list string)) (dir : option string)
| Data (chunk : string)
| Exit (log_there : bool)
| Command (cmd : string).

Definition handle (i : input) (mc : Mc) : result Mc :=
  match i with
  | Start opts dir => Ok (startServer opts dir mc)
  | Data chunk => on_data chunk mc
  | Exit log_there => on_exit log_there mc
  | Command cmd => let* (_, mc') := sendCommand cmd mc in Ok mc'
  end.

Fixpoint run (tr : list input) (mc : Mc) : result Mc :=
  match tr with
  | [] => Ok mc
  | i :: tr' => let* mc' := handle i mc in run tr' mc'
  end.

(** ** The specification's words

    The lifecycle of section 4.1 of the specification, which the class does
    not store: it is read off the inputs. *)

Inductive ServerLifecycleState := Stopped | Starting | Running | StoppedAfterExit.

(** A pattern occurs in [s] at some position. *)
Definition occurs (here : string -> option (nat * captures)) (s : string)
    : Prop :=
  exists i, i <= String.length s /\ is_Some (here (Str.drop i s)).

(** The ready signal of section 4.2: the message of the chunk matches
    [Done (<float>s)!]. *)
Definition spec_ready_signal (chunk : string) : bool :=
  match search regex.cdone_here (clean chunk) 0 with
  | Some _ => true
  | None => false
  end.

(** [Stopped --start()--> Starting --readySignal--> Running --processExit-->
    Stopped]; output and exit come from a live process only, and a process
    is started only when none is live. *)
Definition spec_lifecycle_step (s : ServerLifecycleState) (i : input)
    : option ServerLifecycleState :=
  match i, s with
  | Start _ _, (Stopped | StoppedAfterExit) => Some Starting
  | Data chunk, Starting =>
      Some (if spec_ready_signal chunk then Running else Starting)
  | Data _, Running => Some Running
  | Exit _, (Starting | Running) => Some StoppedAfterExit
  | Command _, _ => Some s
  | _, _ => None
  end.

Fixpoint spec_lifecycle (tr : list input) (s : ServerLifecycleState)
    : option ServerLifecycleState :=
  match tr with
  | [] => Some s
  | i :: tr' =>
      match spec_lifecycle_step s i with
      | Some s' => spec_lifecycle tr' s'
      | None => None
      end
  end.

(** The process is live: from the spawn to the exit. *)
Definition live (s : ServerLifecycleState) : bool :=
  match s with Starting | Running => true | _ => false end.

(** An exit finds the log file it unlinks; the other inputs need none. *)
Definition finds_log (i : input) : bool :=
  match i with Exit log_there => log_there | _ => true end.

(** Every exit of a history finds the log file it unlinks, so that every
    exit handler runs to its end. *)
Definition exits_find_log (tr : list input) : bool := forallb finds_log tr.

(** The manifest is replaced through a temporary file and a rename: some
    other file is written and renamed to [target], and [target] itself is
    never written. *)
Definition written_atomically (target : string) (calls : list fs_call) : Prop :=
  (exists tmp data_, tmp <> target /\ In (WriteFile tmp data_) calls
                     /\ In (Rename tmp target) calls)
  /\ forall data_, ~ In (WriteFile target data_) calls.

(** A pattern that never matches the empty string. *)
Definition advances (here : string -> option (nat * captures)) : Prop :=
  forall s len g, here s = Some (len, g) -> 0 < len.

(** The [pty] object agrees with a lifecycle state: the flag is set and the
    terminal is there while the process is live, and the flag is not set
    otherwise. *)
Definition pty_agrees (s : ServerLifecycleState) (mc : Mc) : Prop :=
  if live s then pty_running mc = JBool true /\ is_Some (pty_state mc)
  else truthy (pty_running mc) = false.

(** The chunk of scenario 4, and a later chunk of the same process. *)
Definition ready_chunk : string :=
  "[12:00:00] [Server thread/INFO]: Done (3.21s)! For help, type...".

Definition reload_chunk : string :=
  "[12:07:31] [Server thread/INFO]: Reload complete. Done (0.52s)!".

(** An object as the configuration of the repository makes it. *)
Definition example_Mc (loaded : list ModRecord) : Mc :=
  new_Mc "/home/rylor/Code/node-mc/minecraft" "1.8.9-11.15.1.1752" loaded.

(** *** Counting emissions *)

Definition is_emission (name : string) (e : emission) : bool :=
  String.eqb (fst e) name.

Definition is_status_up (e : emission) : bool :=
  match e with
  | (name, PString s) => String.eqb name "status" && String.eqb s "up"
  | _ => false
  end.

Definition count (p : emission -> bool) (l : list emission) : nat :=
  length (List.filter p l).

(** The records of one kind in the event queue. *)
Definition queued (ev : string) (q : list ModEvent) : list ModRecord :=
  map data (List.filter (fun m => String.eqb (event m) ev) q).

(** The batch that [sendEvents] emits for one kind: none when no record of
    the kind is queued. *)
Definition batch (ev : string) (q : list ModEvent) : list emission :=
  match queued ev q with
  | [] => []
  | l => [(ev, PMods l)]
  end.

(** The records that a scan affects by Deletion, in the words of section
    4.3 of the specification: every record of the manifest whose file no
    longer exists on disk. *)
Definition spec_Deletion (entries : list (string * node))
    (l : list ModRecord) : list ModRecord :=
  List.filter (fun r => negb (existsSync entries (filename r))) l.

(** The two writes at the end of a scan. *)
Definition final_writes (dir : string) (l : list ModRecord) : list fs_call :=
  [WriteFile (path_join dir "mods.json") (JSON.stringify l);
   WriteFile (path_join dir "clientmods.json") "[]"].

(** The mod directory holds what the manifest says: every record has its
    file and every file its record, with the digest recorded. *)
Definition unchanged (entries : list (string * node)) (l : list ModRecord)
    : bool :=
  forallb (fun r => existsSync entries (filename r)) l
  && forallb
       (fun e =>
          match snd e with
          | Dir _ => true
          | File digest =>
              match head (List.filter
                            (fun obj => String.eqb (filename obj) (fst e)) l) with
              | Some r => String.eqb digest (hash r)
              | None => false
              end
          end) entries.

(** ** More of the class *)

(** *** [buildModDatabase] *)

(** [async.each(files, ...)] of [buildModDatabase]: every regular file is
    hashed and pushed, in the order in which the streams end; nothing is
    looked up. *)
Fixpoint build_each (entries : list (string * node))
    (mods_ : list ModRecord) : list ModRecord :=
  match entries with
  | [] => mods_
  | (mod_, n) :: rest =>
      match n with
      | Dir _ => build_each rest mods_
      | File digest => build_each rest (mods_ ++ [mkMod mod_ digest])
      end
  end.

(** [buildModDatabase()], run to the end of its callbacks.  [mod_dir] is
    what is at [path.join(this.minecraft.dir, 'mods')]: its entries, listed
    in the order in which their hash streams end, or [None] when the
    directory is not there and [mkdirp.sync] makes it.  The boolean tells
    whether [mkdirp.sync] was called. *)
Definition buildModDatabase (mod_dir : option (list (string * node)))
    (mc : Mc) : bool * Mc :=
  let made := match mod_dir with Some _ => false | None => true end in
  let files := match mod_dir with Some entries => entries | None => [] end in
  let mc := set_mods (build_each files (mods mc)) mc in
  (made,
   fs_do (WriteFile (path_join (minecraft_dir mc) "mods.json")
            (JSON.stringify (mods mc))) mc).

(** *** [sendEvent] and [populateEvents] *)

(** An entry of [cfg.eventListeners]. *)
Record Listener := mkListener {
  listener_type : string;
  listener_uri : string;
  listener_events : list string
}.

(** What a call of [sendEvent] does: a POST of the JSON body
    [{event, data}] to a URI, or a warning about the type. *)
Inductive delivery :=
| Post (url : string) (body : emission)
| Warn (type_ : string).

(** [sendEvent(type, to, args)] *)
Definition sendEvent (type_ to : string) (args : emission) : delivery :=
  if String.eqb type_ "webhook" then Post to args else Warn type_.

(** An [EventEmitter]: the registered handlers with the name each is
    registered for, oldest first. *)
Definition EventEmitter : Type := list (string * (payload -> delivery)).

(** [events.on(name, handler)] *)
Definition on (name : string) (handler : payload -> delivery)
    (events : EventEmitter) : EventEmitter :=
  events ++ [(name, handler)].

(** [events.emit(name, arg)]: the handlers registered for [name] are called
    in the order of their registration. *)
Definition emit_to (events : EventEmitter) (name : string) (arg : payload)
    : list delivery :=
  map (fun h => snd h arg)
    (List.filter (fun h => String.eqb (fst h) name) events).

(** [populateEvents()] *)
Definition populateEvents (eventListeners : list Listener)
    (events : EventEmitter) : EventEmitter :=
  fold_left
    (fun events listener =>
       fold_left
         (fun events levent =>
            on levent
              (fun data_ =>
                 sendEvent (listener_type listener) (listener_uri listener)
                   (levent, data_))
              events)
         (listener_events listener) events)
    eventListeners events.

(** *** Words for the properties below *)

(** Every character of a string satisfies [p]. *)
Fixpoint all_chars (p : ascii -> bool) (s : string) : bool :=
  match s with
  | EmptyString => true
  | String c s' => p c && all_chars p s'
  end.

(** [t], between brackets, is in [s] at position [i]. *)
Definition bracketed_at (t s : string) (i : nat) : Prop :=
  exists rest, Str.drop i s = ("[" ++ t ++ "]" ++ rest)%string.

(** An element of the array returned for [regex.ctags]: a tag of the
    chunk. *)
Definition is_tag_of (data_ : string) (v : jsval) : Prop :=
  exists t i,
    v = JString t /\ t <> EmptyString
    /\ all_chars regex.ctags_class t = true
    /\ bracketed_at t data_ i.

(** What the terminal is sent in a history: the commands given while the
    process is live, each with its carriage return. *)
Fixpoint commands_while_live (tr : list input) (s : ServerLifecycleState)
    : list string :=
  match tr with
  | [] => []
  | i :: tr' =>
      match spec_lifecycle_step s i with
      | None => []
      | Some s' =>
          match i with
          | Command cmd => if live s then [(cmd ++ CR)%string] else []
          | _ => []
          end ++ commands_while_live tr' s'
      end
  end.

(** The chunks of a history since its last start, each with its line feed;
    [acc] is what was logged before the history. *)
Fixpoint chunks_logged (tr : list input) (acc : list string) : list string :=
  match tr with
  | [] => acc
  | Start _ _ :: tr' => chunks_logged tr' []
  | Data chunk :: tr' => chunks_logged tr' (acc ++ [(chunk ++ LF)%string])
  | _ :: tr' => chunks_logged tr' acc
  end.

(** The first record of a manifest with a given file name:
    [self.mods.filter(...)[0]]. *)
Definition installed (name : string) (l : list ModRecord) : option ModRecord :=
  head (List.filter (fun obj => String.eqb (filename obj) name) l).

(** One record per regular file of a directory, in the order of the
    entries. *)
Fixpoint file_records (entries : list (string * node)) : list ModRecord :=
  match entries with
  | [] => []
  | (name, File digest) :: rest => mkMod name digest :: file_records rest
  | (_, Dir _) :: rest => file_records rest
  end.

(** The regular files of a directory that have no record in a manifest. *)
Definition new_files (entries : list (string * node)) (l : list ModRecord)
    : list ModRecord :=
  List.filter
    (fun r => match installed (filename r) l with Some _ => false | None => true end)
    (file_records entries).

(** Some regular file of the directory has a record with another digest. *)
Definition changed (entries : list (string * node)) (l : list ModRecord)
    : bool :=
  existsb
    (fun r =>
       match installed (filename r) l with
       | Some r' => negb (String.eqb (hash r) (hash r'))
       | None => false
       end)
    (file_records entries).

(** No two neighbours of a manifest are both without their file. *)
Fixpoint no_adjacent_missing (entries : list (string * node))
    (l : list ModRecord) : bool :=
  match l with
  | r1 :: (r2 :: _) as rest =>
      (existsSync entries (filename r1) || existsSync entries (filename r2))
      && no_adjacent_missing entries rest
  | _ => true
  end.

(** The path of a call into [fs]. *)
Definition call_path (c : fs_call) : string :=
  match c with
  | WriteFile p _ | UnlinkSync p | RmdirSync p => p
  | Rename _ dst => dst
  end.

(** [path] is [dir] or below it. *)
Definition within (dir path : string) : Prop :=
  path = dir \/ exists rest, path = (dir ++ "/" ++ rest)%string.

(** The regular files and the directories of a tree. *)
Fixpoint count_files (n : node) : nat :=
  match n with
  | File _ => 1
  | Dir entries =>
      (fix sum (es : list (string * node)) : nat :=
         match es with
         | [] => 0
         | (_, child) :: es' => count_files child + sum es'
         end) entries
  end.

Fixpoint count_dirs (n : node) : nat :=
  match n with
  | File _ => 0
  | Dir entries =>
      S ((fix sum (es : list (string * node)) : nat :=
            match es with
            | [] => 0
            | (_, child) :: es' => count_dirs child + sum es'
            end) entries)
  end.

Definition is_unlink (c : fs_call) : bool :=
  match c with UnlinkSync _ => true | _ => false end.

Definition is_rmdir (c : fs_call) : bool :=
  match c with RmdirSync _ => true | _ => false end.

(** Reading back one escaped character of a quoted string, with the rest:
    the inverse of [JSON.escape].  A quote ends the string and is not a
    character of it. *)
Definition hex_value (c : ascii) : nat :=
  let n := Chars.code c in if n <? 58 then n - 48 else n - 87.

Definition unescape (s : string) : option (ascii * string) :=
  match s with
  | EmptyString => None
  | String c0 rest0 =>
      if Chars.code c0 =? 34 then None
      else if Chars.code c0 =? 92 then
        match rest0 with
        | EmptyString => None
        | String c1 rest1 =>
            let n := Chars.code c1 in
            if n =? 34 then Some (ascii_of_nat 34, rest1)
            else if n =? 92 then Some (ascii_of_nat 92, rest1)
            else if n =? 98 then Some (ascii_of_nat 8, rest1)
            else if n =? 116 then Some (ascii_of_nat 9, rest1)
            else if n =? 110 then Some (ascii_of_nat 10, rest1)
            else if n =? 102 then Some (ascii_of_nat 12, rest1)
            else if n =? 114 then Some (ascii_of_nat 13, rest1)
            else if n =? 117 then
              match rest1 with
              | String _ (String _ (String h1 (String h2 rest2))) =>
                  Some (ascii_of_nat (16 * hex_value h1 + hex_value h2), rest2)
              | _ => None
              end
            else None
        end
      else Some (c0, rest0)
  end.

(** * Proofs *)

(** ** Searching and matching *)

Lemma drop_length (n : nat) (s : string) :
  String.length (Str.drop n s) = String.length s - n.
Proof.
  revert s; induction n as [|n IH]; intros [|c s]; simpl; auto with arith.
Qed.

Lemma drop_drop (n m : nat) (s : string) :
  Str.drop n (Str.drop m s) = Str.drop (m + n) s.
Proof.
  revert s; induction m as [|m IH]; intros s; simpl; [done|].
  destruct s as [|c s]; [by destruct n|]. apply IH.
Qed.

Lemma search_Some here s i j len g :
  search here s i = Some (j, len, g) ->
  i <= j /\ j - i <= String.length s /\ here (Str.drop (j - i) s) = Some (len, g).
Proof.
  revert i; induction s as [|c s IH]; intros i; simpl.
  - destruct (here EmptyString) as [[l g']|] eqn:E; [|done].
    intros [= <- <- <-]. rewrite Nat.sub_diag. simpl. auto.
  - destruct (here (String c s)) as [[l g']|] eqn:E.
    + intros [= <- <- <-]. rewrite Nat.sub_diag. simpl. auto with arith.
    + intros H. apply IH in H as (Hle & Hlen & Hm).
      replace (j - i) with (S (j - S i)) by lia. simpl.
      repeat split; [lia | lia | done].
Qed.

Lemma search_None here s i k :
  search here s i = None -> k <= String.length s -> here (Str.drop k s) = None.
Proof.
  revert i k; induction s as [|c s IH]; intros i k; simpl.
  - destruct (here EmptyString) as [[l g']|] eqn:E; [done|].
    intros _ Hk. by replace k with 0 by lia.
  - destruct (here (String c s)) as [[l g']|] eqn:E; [done|].
    intros H Hk. destruct k as [|k]; [done|]. simpl.
    eapply IH; [done | lia].
Qed.

(** The search from the start succeeds exactly when the pattern occurs. *)
Lemma search_occurs here s :
  is_Some (search here s 0) <-> occurs here s.
Proof.
  split.
  - intros [[[j len] g] H]. apply search_Some in H as (_ & Hlen & Hm).
    exists (j - 0). split; [done|]. by rewrite Hm.
  - intros (i & Hi & Hm). destruct (search here s 0) eqn:E; [done|].
    rewrite (search_None _ _ _ _ E Hi) in Hm. by destruct Hm.
Qed.

Lemma exec_None r s r' : exec r s = (None, r') -> r' = set_lastIndex r 0.
Proof.
  unfold exec. destruct (_ <? _); [by intros [= <-]|].
  destruct (search _ _ _) as [[[i len] g]|]; [done | by intros [= <-]].
Qed.

Lemma exec_Some r s m r' :
  re_global r = true -> advances (re_here r) -> exec r s = (Some m, r') ->
  r' = set_lastIndex r (lastIndex r') /\ lastIndex r < lastIndex r'
  /\ lastIndex r <= String.length s.
Proof.
  intros Hg Hadv. unfold exec. rewrite Hg.
  destruct (String.length s <? lastIndex r) eqn:Hlt; [done|].
  apply Nat.ltb_ge in Hlt.
  destruct (search _ _ _) as [[[i len] g]|] eqn:E; [|done].
  intros [= <- <-]. simpl.
  apply search_Some in E as (Hle & _ & Hm). apply Hadv in Hm.
  repeat split; [lia | done].
Qed.

Lemma getRegexMatches_loop_total fuel :
  forall r s matches m,
    re_global r = true -> advances (re_here r) ->
    match m with
    | None => 1 <= fuel /\ lastIndex r = 0
    | Some _ => 2 <= fuel /\ String.length s + 3 <= fuel + lastIndex r
    end ->
    exists out, getRegexMatches_loop fuel r s matches m
                = Some (out, set_lastIndex r 0).
Proof.
  induction fuel as [|fuel IH]; intros r s matches m Hg Hadv Hfuel.
  - destruct m; lia.
  - destruct m as [m|]; simpl.
    + destruct Hfuel as [H2 Hlen].
      destruct (exec r s) as [next r'] eqn:E.
      destruct next as [m'|].
      * destruct (exec_Some _ _ _ _ Hg Hadv E) as (Hr' & Hlt & Hle).
        edestruct (IH r' s) as [out Hout]; [by rewrite Hr' | by rewrite Hr' | |].
        2:{ exists out. rewrite Hout. by rewrite Hr'. }
        simpl. lia.
      * apply exec_None in E as ->.
        edestruct (IH (set_lastIndex r 0) s) as [out Hout]; [done | done | |].
        2:{ exists out. by rewrite Hout. }
        simpl. lia.
    + destruct Hfuel as [_ H0]. exists matches. destruct r; simpl in *. by subst.
Qed.

Lemma getRegexMatches_total r s :
  re_global r = true -> advances (re_here r) ->
  exists out,
    getRegexMatches (String.length s + 2) (JRegExp r) s
    = Some (JArray out, JRegExp (set_lastIndex r 0)).
Proof.
  intros Hg Hadv. unfold getRegexMatches.
  destruct (exec r s) as [m r'] eqn:E. destruct m as [m|].
  - destruct (exec_Some _ _ _ _ Hg Hadv E) as (Hr' & Hlt & Hle).
    edestruct (getRegexMatches_loop_total (String.length s + 2) r' s [] (Some m))
      as [out Hout]; [by rewrite Hr' | by rewrite Hr' | simpl; lia |].
    exists out. rewrite Hout. by rewrite Hr'.
  - apply exec_None in E as ->.
    edestruct (getRegexMatches_loop_total (String.length s + 2)
                 (set_lastIndex r 0) s [] None)
      as [out Hout]; [done | done | simpl; lia |].
    exists out. by rewrite Hout.
Qed.

Lemma ctags_advances : advances regex.ctags_here.
Proof.
  intros s len g. unfold regex.ctags_here.
  repeat case_match; try done. intros [= <- _]. lia.
Qed.

(** ** The console handler *)

(** What the handler does to the object, for every chunk and every state:
    it returns, and its effects are the console event when the guard holds,
    the [up] status when [regex.cdone.exec] matches, and one log line. *)
Lemma on_data_spec (data : string) (mc : Mc) :
  exists mc' tags,
    on_data data mc = Ok mc'
    /\ getRegexMatches (String.length data + 2)
         (JRegExp (regex.ctags (ctags_lastIndex (regex_state mc)))) data
       = Some (JArray tags, JRegExp (regex.ctags 0))
    /\ emitted mc'
       = emitted mc
         ++ (if console_guard (tags ++ [JString (clean data)])
             then [("console", PArray (tags ++ [JString (clean data)]))]
             else [])
         ++ (match fst (exec (regex.cdone (cdone_lastIndex (regex_state mc)))
                          (clean data)) with
             | Some _ => [("status", PString "up")]
             | None => []
             end)
    /\ logfile mc' = logfile mc ++ [(data ++ LF)%string]
    /\ pty_input mc' = pty_input mc
    /\ pty_running mc' = pty_running mc
    /\ pty_state mc' = pty_state mc
    /\ mods mc' = mods mc
    /\ fs_calls mc' = fs_calls mc.
Proof.
  destruct (getRegexMatches_total
              (regex.ctags (ctags_lastIndex (regex_state mc))) data
              eq_refl ctags_advances) as [tags Htags].
  unfold on_data. rewrite Htags. simpl.
  destruct (exec _ (clean data)) as [isDone cdone'] eqn:E. simpl.
  eexists; exists tags. split; [reflexivity|]. split; [done|].
  destruct (console_guard _), isDone; simpl;
    rewrite <- ?app_assoc, ?app_nil_r; done.
Qed.

Lemma exec_cdone_from_start (s : string) :
  is_Some (fst (exec (regex.cdone 0) s)) <-> occurs regex.cdone_here s.
Proof.
  rewrite <- search_occurs. unfold exec. simpl.
  destruct (search regex.cdone_here s 0) as [[[i len] g]|]; simpl.
  - split; eauto.
  - split; intros [? ?]; done.
Qed.

(** C9: whenever the first argument of [getRegexMatches] is not a RegExp
    instance, the call returns the string ["ERROR"] (and leaves the argument
    as it is), whatever the second argument: never an array of matches,
    never an exception, never a run of the loop. *)
Theorem getRegexMatches_not_RegExp (fuel : nat) (v : jsval) (s : string) :
  instanceof_RegExp v = false ->
  getRegexMatches fuel v s = Some (JString "ERROR", v)
  /\ (forall l v', getRegexMatches fuel v s <> Some (JArray l, v'))
  /\ (forall x, exists msg, push (JString "ERROR") x = Throw (TypeError msg)).
Proof.
  intros Hv. assert (getRegexMatches fuel v s = Some (JString "ERROR", v)) as ->
    by (destruct v; done).
  repeat split; [done|]. intros x. eexists. reflexivity.
Qed.

Lemma getRegexMatches_not_RegExp_witness :
  instanceof_RegExp (JString "[a-z]+") = false
  /\ getRegexMatches 0 (JString "[a-z]+") "[12:00:00] ready"
     = Some (JString "ERROR", JString "[a-z]+").
Proof.
  split; [reflexivity|].
  apply (getRegexMatches_not_RegExp 0 (JString "[a-z]+") "[12:00:00] ready").
  reflexivity.
Defined.

(** C8: for every chunk, in every state, the console handler returns; it
    emits at most one [console] event, it writes the raw chunk followed by a
    line feed to the log, and it emits no [console] event when the first
    element of the parsed array is [null], a single space or the empty
    string. *)
Theorem on_data_console_event_and_log (data : string) (mc : Mc) :
  exists mc' tags new,
    on_data data mc = Ok mc'
    /\ getRegexMatches (String.length data + 2)
         (JRegExp (regex.ctags (ctags_lastIndex (regex_state mc)))) data
       = Some (JArray tags, JRegExp (regex.ctags 0))
    /\ logfile mc' = logfile mc ++ [(data ++ LF)%string]
    /\ emitted mc' = emitted mc ++ new
    /\ count (is_emission "console") new <= 1
    /\ (let res0 := first (tags ++ [JString (clean data)]) in
        res0 = JNull \/ res0 = JString " " \/ res0 = JString EmptyString ->
        count (is_emission "console") new = 0).
Proof.
  destruct (on_data_spec data mc)
    as (mc' & tags & Hrun & Htags & Hemit & Hlog & _).
  exists mc', tags. eexists. repeat split; [done | done | done | exact Hemit | |].
  - destruct (console_guard _), (fst (exec _ _)); simpl; unfold count; simpl; lia.
  - simpl. intros Hres0.
    assert (console_guard (tags ++ [JString (clean data)]) = false) as ->.
    { unfold console_guard. destruct Hres0 as [-> | [-> | ->]]; done. }
    by destruct (fst (exec _ _)).
Qed.

(** Chunks whose first parsed element is a single space or empty emit no
    [console] event and are logged all the same; an ordinary line emits
    one. *)
Example on_data_suppressed :
  (exists mc', on_data "[ ] hello" (example_Mc []) = Ok mc'
               /\ emitted mc' = [] /\ logfile mc' = [("[ ] hello" ++ LF)%string])
  /\ (exists mc', on_data EmptyString (example_Mc []) = Ok mc'
                  /\ emitted mc' = [] /\ logfile mc' = [LF])
  /\ (exists mc', on_data "[12:00:01] [Server thread/INFO]: Preparing level"
                    (example_Mc []) = Ok mc'
                  /\ emitted mc'
                     = [("console",
                         PArray [JString "12:00:01";
                                 JString "Server thread/INFO";
                                 JString "Preparing level"])]).
Proof.
  repeat split; eexists; (split; [vm_compute; reflexivity|]); done.
Qed.

(** C4, as the code has it: a chunk that arrives while [regex.cdone] is at
    the start ([lastIndex] 0, as at program start and after every chunk in
    which the marker was not found) publishes [status: up] once if its
    message contains the ready marker and not at all otherwise, in every
    state of the supervisor: nothing records that [up] was published
    before. *)
Theorem ready_marker_publishes_up (data : string) (mc : Mc) :
  cdone_lastIndex (regex_state mc) = 0 ->
  exists mc' new,
    on_data data mc = Ok mc'
    /\ emitted mc' = emitted mc ++ new
    /\ (occurs regex.cdone_here (clean data) -> count is_status_up new = 1)
    /\ (~ occurs regex.cdone_here (clean data) -> count is_status_up new = 0).
Proof.
  intros H0.
  destruct (on_data_spec data mc) as (mc' & tags & Hrun & _ & Hemit & _).
  rewrite H0 in Hemit.
  exists mc'. eexists. repeat split; [done | exact Hemit | |].
  - intros Hocc. apply exec_cdone_from_start in Hocc as [m Hm]. rewrite Hm.
    by destruct (console_guard _).
  - intros Hocc.
    destruct (fst (exec (regex.cdone 0) (clean data))) as [m|] eqn:Hm.
    + exfalso. apply Hocc, exec_cdone_from_start. by rewrite Hm.
    + by destruct (console_guard _).
Qed.

Lemma ready_marker_publishes_up_witness :
  cdone_lastIndex (regex_state (startServer None None (example_Mc []))) = 0
  /\ exists mc' new,
       on_data ready_chunk (startServer None None (example_Mc [])) = Ok mc'
       /\ emitted mc' = emitted (startServer None None (example_Mc [])) ++ new
       /\ (occurs regex.cdone_here (clean ready_chunk) ->
           count is_status_up new = 1)
       /\ (~ occurs regex.cdone_here (clean ready_chunk) ->
           count is_status_up new = 0).
Proof.
  split; [reflexivity|].
  apply (ready_marker_publishes_up ready_chunk
           (startServer None None (example_Mc []))).
  reflexivity.
Defined.

(** C4 as stated fails: in one process lifetime, two chunks whose messages
    match the ready marker publish [status: up] twice. *)
Lemma status_up_published_twice :
  spec_ready_signal ready_chunk = true
  /\ spec_ready_signal reload_chunk = true
  /\ spec_lifecycle [Start None None; Data ready_chunk; Data reload_chunk]
       Stopped = Some Running
  /\ exists mc,
       run [Start None None; Data ready_chunk; Data reload_chunk]
         (example_Mc []) = Ok mc
       /\ count is_status_up (emitted mc) = 2.
Proof.
  repeat split; try reflexivity.
  eexists. split; [vm_compute; reflexivity | reflexivity].
Qed.

(** The [g] flag of [regex.cdone]: an [exec] that follows a successful one
    starts behind the previous match, so the same chunk arriving three times
    publishes [up] for the first and the third. *)
Example ready_chunk_three_times :
  exists mc,
    run [Start None None; Data ready_chunk; Data ready_chunk; Data ready_chunk]
      (example_Mc []) = Ok mc
    /\ List.filter is_status_up (emitted mc)
       = [("status", PString "up"); ("status", PString "up")]
    /\ length (logfile mc) = 3.
Proof. eexists. split; [vm_compute; reflexivity|]. by split. Qed.

(** ** The command channel *)

Lemma sendCommand_live (cmd : string) (mc : Mc) :
  pty_running mc = JBool true -> is_Some (pty_state mc) ->
  sendCommand cmd mc = Ok (true, term_write (cmd ++ CR) mc).
Proof.
  intros Hr [t Ht]. unfold sendCommand, writeToPty, isPtyRunning.
  by rewrite Hr, Ht.
Qed.

Lemma sendCommand_not_running (cmd : string) (mc : Mc) :
  truthy (pty_running mc) = false -> sendCommand cmd mc = Ok (false, mc).
Proof.
  intros Hr. unfold sendCommand, writeToPty, isPtyRunning. by rewrite Hr.
Qed.

Lemma sendCommand_agrees s cmd mc :
  pty_agrees s mc ->
  sendCommand cmd mc
  = Ok (live s, if live s then term_write (cmd ++ CR) mc else mc).
Proof.
  unfold pty_agrees. destruct (live s).
  - intros [Hr Ht]. by apply sendCommand_live.
  - apply sendCommand_not_running.
Qed.

Lemma handle_agrees i s s' mc :
  pty_agrees s mc -> spec_lifecycle_step s i = Some s' ->
  finds_log i = true ->
  exists mc', handle i mc = Ok mc' /\ pty_agrees s' mc'.
Proof.
  intros Hinv Hstep Hlog.
  destruct i as [opts dir | chunk | log_there | cmd]; simpl in *.
  - exists (startServer opts dir mc). split; [done|].
    destruct s; simplify_eq; by split.
  - destruct (on_data_spec chunk mc)
      as (mc' & tags & Hrun & _ & _ & _ & _ & Hr & Ht & _).
    exists mc'. split; [done|].
    assert (pty_agrees s mc') as Hinv'
      by (unfold pty_agrees in *; by rewrite Hr, Ht).
    destruct s; simplify_eq; [by destruct (spec_ready_signal chunk) | done].
  - subst log_there. eexists. split; [reflexivity|].
    by destruct s; simplify_eq.
  - simplify_eq. rewrite (sendCommand_agrees s' cmd mc Hinv). simpl.
    eexists. split; [done|]. unfold pty_agrees in *. by destruct (live s').
Qed.

Lemma run_agrees tr :
  forall s s' mc,
    pty_agrees s mc -> spec_lifecycle tr s = Some s' ->
    exits_find_log tr = true ->
    exists mc', run tr mc = Ok mc' /\ pty_agrees s' mc'.
Proof.
  induction tr as [|i tr IH]; intros s s' mc Hinv Hspec Hlog; simpl in *.
  - simplify_eq. by exists mc.
  - destruct (spec_lifecycle_step s i) as [s1|] eqn:Hstep; [|done].
    apply andb_prop in Hlog as [Hi Hlog].
    destruct (handle_agrees i s s1 mc Hinv Hstep Hi) as (mc1 & -> & Hinv1).
    simpl. by eapply IH.
Qed.

(** C1, as the code has it: after any history of starts, output, exits and
    commands that the lifecycle allows and in which every exit handler ran
    to its end (it found the log file it unlinks), [sendCommand(text)]
    succeeds and writes [text] followed by a carriage return to the terminal
    exactly when the process is live (state Starting or Running: from the
    spawn, where [pty.running] is set, to the exit); in the two stopped
    states it returns [false] and changes nothing. *)
Theorem sendCommand_writes_iff_live (tr : list input)
    (dir forge : string) (loaded : list ModRecord)
    (s : ServerLifecycleState) (text : string) :
  spec_lifecycle tr Stopped = Some s ->
  exits_find_log tr = true ->
  exists mc mc',
    run tr (new_Mc dir forge loaded) = Ok mc
    /\ sendCommand text mc = Ok (live s, mc')
    /\ pty_input mc'
       = pty_input mc ++ (if live s then [(text ++ CR)%string] else [])
    /\ (live s = false -> mc' = mc).
Proof.
  intros Hspec Hlog.
  destruct (run_agrees tr Stopped s (new_Mc dir forge loaded))
    as (mc & Hrun & Hinv); [done | done | done |].
  exists mc. eexists. split; [done|]. split; [by apply sendCommand_agrees|].
  destruct (live s); simpl; [done|]. by rewrite app_nil_r.
Qed.

Lemma sendCommand_writes_iff_live_witness :
  spec_lifecycle [Start None None; Data ready_chunk; Command "list"; Exit true]
    Stopped = Some StoppedAfterExit
  /\ exits_find_log
       [Start None None; Data ready_chunk; Command "list"; Exit true] = true
  /\ exists mc mc',
       run [Start None None; Data ready_chunk; Command "list"; Exit true]
         (example_Mc []) = Ok mc
       /\ sendCommand "stop" mc = Ok (live StoppedAfterExit, mc')
       /\ pty_input mc'
          = pty_input mc
            ++ (if live StoppedAfterExit then [("stop" ++ CR)%string] else [])
       /\ (live StoppedAfterExit = false -> mc' = mc).
Proof.
  split; [reflexivity|]. split; [reflexivity|].
  apply (sendCommand_writes_iff_live
           [Start None None; Data ready_chunk; Command "list"; Exit true]
           "/home/rylor/Code/node-mc/minecraft" "1.8.9-11.15.1.1752" []
           StoppedAfterExit "stop"); reflexivity.
Defined.

(** C1 as stated fails: in state Starting, before any ready signal,
    [sendCommand] returns [true] and writes to the terminal. *)
Lemma sendCommand_writes_while_Starting :
  spec_lifecycle [Start None None] Stopped = Some Starting
  /\ Starting <> Running
  /\ exists mc mc',
       run [Start None None] (example_Mc []) = Ok mc
       /\ sendCommand "stop" mc = Ok (true, mc')
       /\ pty_input mc' = [("stop" ++ CR)%string].
Proof.
  repeat split; try done.
  eexists. eexists. repeat split; reflexivity.
Qed.

(** An exit at which no file is at the path that the handler unlinks (the
    server was started in a directory that is not [minecraft.dir]): the
    handler throws before the [down] status and before [pty.running] is
    cleared. *)
Example exit_handler_throws_without_log :
  on_exit false (startServer None (Some "/srv/other") (example_Mc []))
  = Throw (ENOENT "/home/rylor/Code/node-mc/minecraft/node-mcf.log")
  /\ run [Start None (Some "/srv/other"); Exit false; Command "list"]
       (example_Mc [])
     = Throw (ENOENT "/home/rylor/Code/node-mc/minecraft/node-mcf.log").
Proof. split; reflexivity. Qed.

(** ** The mod scanner *)

Lemma deletion_loop_total fuel :
  forall entries k i l q,
    length l - k < fuel ->
    exists r, deletion_loop fuel entries k i l q = Some r.
Proof.
  induction fuel as [|fuel IH]; intros entries k i l q Hfuel; [lia|].
  simpl. destruct (l !! k) as [r|] eqn:Hk; [|by eexists].
  apply lookup_lt_Some in Hk.
  destruct (negb (existsSync entries (filename r))); apply IH; [|lia].
  assert (length (delete i l) <= length l); [|lia].
  clear. revert i. induction l as [|x l IHl]; intros [|i]; simpl; auto with arith.
Qed.

Lemma scan_passes_not_Diverge entries l : scan_passes entries l <> Diverge.
Proof.
  unfold scan_passes.
  destruct (deletion_loop_total (S (length l)) entries 0 0 l []) as [st ->];
    [lia|].
  simpl. generalize st. clear.
  induction entries as [|[name n] entries IH]; intros st; simpl; [done|].
  destruct n as [digest|es]; [|done].
  destruct (on_end name digest st) as [st'| |] eqn:E; simpl; [done | done |].
  unfold on_end in E. destruct st. repeat case_match; done.
Qed.

Lemma sendEvents_emitted q ev mc :
  sendEvents q ev mc
  = match batch ev q with [] => mc | e :: _ => emit (fst e) (snd e) mc end.
Proof.
  unfold sendEvents, batch, queued. by destruct (map data _).
Qed.

Lemma scan_finish_spec q mc :
  emitted (scan_finish q mc)
  = emitted mc ++ batch "modAddition" q ++ batch "modDeletion" q
      ++ batch "modUpdated" q
  /\ fs_calls (scan_finish q mc)
     = fs_calls mc ++ final_writes (minecraft_dir mc) (mods mc)
  /\ mods (scan_finish q mc) = mods mc
  /\ pty_input (scan_finish q mc) = pty_input mc.
Proof.
  unfold scan_finish. rewrite !sendEvents_emitted. unfold batch.
  destruct (queued "modAddition" q), (queued "modDeletion" q),
    (queued "modUpdated" q); simpl;
    rewrite <- ?app_assoc, ?app_nil_r; done.
Qed.

Lemma scanForNewMods_Ok entries mc mc' :
  scanForNewMods entries mc = Ok mc' ->
  exists q,
    scan_passes entries (mods mc) = Ok (mods mc', q)
    /\ emitted mc'
       = emitted mc ++ batch "modAddition" q ++ batch "modDeletion" q
           ++ batch "modUpdated" q
    /\ fs_calls mc' = fs_calls mc ++ final_writes (minecraft_dir mc) (mods mc').
Proof.
  unfold scanForNewMods.
  destruct (scan_passes entries (mods mc)) as [[l q]| |]; simpl; [|done|done].
  intros [= <-]. exists q.
  destruct (scan_finish_spec q (set_mods l mc)) as (He & Hf & Hm & _).
  rewrite He, Hf, Hm. done.
Qed.

Lemma deletion_loop_unchanged fuel :
  forall entries k l q,
    forallb (fun r => existsSync entries (filename r)) l = true ->
    length l - k < fuel ->
    deletion_loop fuel entries k k l q = Some (l, q).
Proof.
  induction fuel as [|fuel IH]; intros entries k l q Hall Hfuel; [lia|].
  simpl. destruct (l !! k) as [r|] eqn:Hk; [|done].
  assert (existsSync entries (filename r) = true) as ->.
  { rewrite forallb_forall in Hall. apply Hall.
    apply list_elem_of_In. by eapply list_elem_of_lookup_2. }
  simpl. apply IH; [done|]. apply lookup_lt_Some in Hk. lia.
Qed.

Lemma each_file_unchanged l q :
  forall entries,
    forallb
      (fun e =>
         match snd e with
         | Dir _ => true
         | File digest =>
             match head (List.filter
                           (fun obj => String.eqb (filename obj) (fst e)) l) with
             | Some r => String.eqb digest (hash r)
             | None => false
             end
         end) entries = true ->
    each_file entries (l, q) = Ok (l, q).
Proof.
  induction entries as [|[name n] entries IH]; [done|].
  simpl. intros [Hhd Htl]%andb_prop. destruct n as [digest|es]; [|by apply IH].
  destruct (head _) as [r|]; [|done]. rewrite Hhd. simpl. by apply IH.
Qed.

Lemma unchanged_scan entries mc :
  unchanged entries (mods mc) = true ->
  scanForNewMods entries mc = Ok (scan_finish [] mc).
Proof.
  unfold unchanged. intros [Hdel Hadd]%andb_prop.
  unfold scanForNewMods, scan_passes.
  rewrite deletion_loop_unchanged by (done || lia). simpl.
  rewrite each_file_unchanged by done. simpl.
  by destruct mc.
Qed.

(** C3, where the code departs from it: with two records in the manifest
    and neither file on disk, the deletion pass reports and removes the
    first record only; [splice] moves the second into the place the loop has
    just left, so the second stays in the manifest and no deletion is
    reported for it. *)
Theorem deletion_pass_skips_next_record (r1 r2 : ModRecord)
    (dir forge : string) :
  existsSync [] (filename r1) = false
  /\ existsSync [] (filename r2) = false
  /\ exists mc',
       scanForNewMods [] (new_Mc dir forge [r1; r2]) = Ok mc'
       /\ mods mc' = [r2]
       /\ emitted mc' = [("modDeletion", PMods [r1])].
Proof.
  repeat split. eexists. repeat split.
Qed.

(** C2, where the code departs from it: with one record [{name, H1}] in the
    manifest and the file on disk hashing to a different [H2], the scan
    throws a [TypeError] in the update branch ([mod_installed.index] is
    undefined, and so is [self.mods[undefined]]): no event is emitted and
    nothing is written. *)
Theorem update_branch_throws (name H1 H2 dir forge : string) :
  H1 <> H2 ->
  scanForNewMods [(name, File H2)] (new_Mc dir forge [mkMod name H1])
  = Throw (TypeError "Cannot set property 'hash' of undefined").
Proof.
  intros Hne. unfold scanForNewMods, scan_passes. simpl.
  unfold existsSync. simpl. rewrite String.eqb_refl. simpl.
  rewrite String.eqb_refl. simpl.
  assert (String.eqb H2 H1 = false) as ->; [|done].
  apply String.eqb_neq. congruence.
Qed.

Lemma update_branch_throws_witness :
  "H1" <> "H2"
  /\ scanForNewMods [("a.jar", File "H2")]
       (new_Mc "/srv/minecraft" "1.8.9" [mkMod "a.jar" "H1"])
     = Throw (TypeError "Cannot set property 'hash' of undefined").
Proof.
  split; [discriminate|].
  apply (update_branch_throws "a.jar" "H1" "H2" "/srv/minecraft" "1.8.9").
  discriminate.
Defined.

Lemma batch_spec ev q :
  (queued ev q = [] /\ batch ev q = [])
  \/ (queued ev q <> [] /\ batch ev q = [(ev, PMods (queued ev q))]).
Proof.
  unfold batch. destruct (queued ev q); [by left | by right].
Qed.

(** C7, where the code departs from it: with two records in the manifest
    and neither file on disk, both records are affected by Deletion, and the
    scan publishes one [modDeletion] batch that carries the first record
    only: the second, which the deletion pass skipped, is in no batch that
    the scan publishes. *)
Theorem deletion_batch_omits_affected_record (r1 r2 : ModRecord)
    (dir forge : string) :
  r1 <> r2 ->
  spec_Deletion [] [r1; r2] = [r1; r2]
  /\ exists mc',
       scanForNewMods [] (new_Mc dir forge [r1; r2]) = Ok mc'
       /\ emitted mc' = [("modDeletion", PMods [r1])]
       /\ forall ev l, In (ev, PMods l) (emitted mc') -> ~ In r2 l.
Proof.
  intros Hne. split; [reflexivity|]. eexists. split; [reflexivity|].
  split; [reflexivity|].
  intros ev l [[= _ <-]|[]] [->|[]]. done.
Qed.

Lemma deletion_batch_omits_affected_record_witness :
  mkMod "a.jar" "H1" <> mkMod "b.jar" "H2"
  /\ spec_Deletion [] [mkMod "a.jar" "H1"; mkMod "b.jar" "H2"]
     = [mkMod "a.jar" "H1"; mkMod "b.jar" "H2"]
  /\ exists mc',
       scanForNewMods [] (example_Mc [mkMod "a.jar" "H1"; mkMod "b.jar" "H2"])
       = Ok mc'
       /\ emitted mc' = [("modDeletion", PMods [mkMod "a.jar" "H1"])]
       /\ forall ev l,
            In (ev, PMods l) (emitted mc') -> ~ In (mkMod "b.jar" "H2") l.
Proof.
  split; [discriminate|].
  apply (deletion_batch_omits_affected_record
           (mkMod "a.jar" "H1") (mkMod "b.jar" "H2")
           "/home/rylor/Code/node-mc/minecraft" "1.8.9-11.15.1.1752").
  discriminate.
Defined.

(** C5, as the code has it: a scan that runs to its end, with or without
    changes, makes exactly two calls that change the disk, both
    [fs.writeFile]: the serialized manifest straight into [mods.json], then
    [clientmods.json].  No other file is written and nothing is renamed. *)
Theorem manifest_written_in_place (entries : list (string * node))
    (mc mc' : Mc) :
  scanForNewMods entries mc = Ok mc' ->
  fs_calls mc'
  = fs_calls mc
    ++ [WriteFile (path_join (minecraft_dir mc) "mods.json")
          (JSON.stringify (mods mc'));
        WriteFile (path_join (minecraft_dir mc) "clientmods.json") "[]"]
  /\ ~ written_atomically (path_join (minecraft_dir mc) "mods.json")
         (final_writes (minecraft_dir mc) (mods mc')).
Proof.
  intros Hscan. destruct (scanForNewMods_Ok _ _ _ Hscan) as (q & _ & _ & Hf).
  split; [exact Hf|].
  intros [_ Hno]. apply (Hno (JSON.stringify (mods mc'))). by left.
Qed.

Lemma manifest_written_in_place_witness :
  scanForNewMods [("a.jar", File "H1")] (example_Mc [])
  = Ok (scan_finish [mkModEvent (mkMod "a.jar" "H1") "modAddition"]
          (set_mods [mkMod "a.jar" "H1"] (example_Mc [])))
  /\ [WriteFile "/home/rylor/Code/node-mc/minecraft/mods.json"
        (JSON.stringify [mkMod "a.jar" "H1"]);
      WriteFile "/home/rylor/Code/node-mc/minecraft/clientmods.json" "[]"]
     = [] ++ [WriteFile "/home/rylor/Code/node-mc/minecraft/mods.json"
                (JSON.stringify [mkMod "a.jar" "H1"]);
              WriteFile "/home/rylor/Code/node-mc/minecraft/clientmods.json"
                "[]"]
  /\ ~ written_atomically "/home/rylor/Code/node-mc/minecraft/mods.json"
         (final_writes "/home/rylor/Code/node-mc/minecraft"
            [mkMod "a.jar" "H1"]).
Proof.
  split; [reflexivity|].
  apply (manifest_written_in_place [("a.jar", File "H1")] (example_Mc [])
           (scan_finish [mkModEvent (mkMod "a.jar" "H1") "modAddition"]
              (set_mods [mkMod "a.jar" "H1"] (example_Mc [])))).
  reflexivity.
Defined.

(** C5 as stated fails: a scan that adds one record writes the manifest with
    one direct [fs.writeFile] on [mods.json]; no temporary file is written
    and nothing is renamed. *)
Lemma manifest_not_written_atomically :
  exists mc',
    scanForNewMods [("a.jar", File "H1")] (example_Mc []) = Ok mc'
    /\ emitted mc' = [("modAddition", PMods [mkMod "a.jar" "H1"])]
    /\ In (WriteFile "/home/rylor/Code/node-mc/minecraft/mods.json"
             (JSON.stringify [mkMod "a.jar" "H1"])) (fs_calls mc')
    /\ (forall src dst, ~ In (Rename src dst) (fs_calls mc'))
    /\ ~ written_atomically "/home/rylor/Code/node-mc/minecraft/mods.json"
           (fs_calls mc').
Proof.
  eexists. split; [reflexivity|]. split; [reflexivity|].
  split; [by left|]. split.
  - intros src dst [H | [H | []]]; discriminate.
  - intros [_ Hno]. eapply Hno. by left.
Qed.

(** C10: the write of [mods.json] at the end of a scan is not conditioned
    on any change.  Every scan that runs to its end ends with the write of
    the whole current manifest, serialized, into [mods.json] (and then
    [clientmods.json]), whatever the event queue holds; and when the mod
    directory holds exactly what the manifest says, the scan does run to its
    end, publishes nothing, leaves the manifest as it is, and still writes
    it. *)
Theorem scan_rewrites_mods_json (entries : list (string * node)) (mc : Mc) :
  (forall mc',
     scanForNewMods entries mc = Ok mc' ->
     fs_calls mc'
     = fs_calls mc
       ++ [WriteFile (path_join (minecraft_dir mc) "mods.json")
             (JSON.stringify (mods mc'));
           WriteFile (path_join (minecraft_dir mc) "clientmods.json") "[]"])
  /\ (unchanged entries (mods mc) = true ->
      exists mc',
        scanForNewMods entries mc = Ok mc'
        /\ emitted mc' = emitted mc
        /\ mods mc' = mods mc
        /\ fs_calls mc'
           = fs_calls mc
             ++ [WriteFile (path_join (minecraft_dir mc) "mods.json")
                   (JSON.stringify (mods mc));
                 WriteFile (path_join (minecraft_dir mc) "clientmods.json")
                   "[]"]).
Proof.
  split.
  - intros mc' Hscan.
    by destruct (scanForNewMods_Ok _ _ _ Hscan) as (q & _ & _ & Hf).
  - intros Hsame. exists (scan_finish [] mc).
    split; [by apply unchanged_scan|].
    destruct (scan_finish_spec [] mc) as (He & Hf & Hm & _).
    rewrite He, Hf, Hm. simpl. by rewrite app_nil_r.
Qed.

Lemma scan_rewrites_mods_json_witness :
  unchanged [("a.jar", File "H1"); ("b.jar", File "H2")]
    (mods (example_Mc [mkMod "a.jar" "H1"; mkMod "b.jar" "H2"])) = true
  /\ exists mc',
       scanForNewMods [("a.jar", File "H1"); ("b.jar", File "H2")]
         (example_Mc [mkMod "a.jar" "H1"; mkMod "b.jar" "H2"]) = Ok mc'
       /\ emitted mc' = []
       /\ mods mc' = [mkMod "a.jar" "H1"; mkMod "b.jar" "H2"]
       /\ fs_calls mc'
          = [WriteFile "/home/rylor/Code/node-mc/minecraft/mods.json"
               (JSON.stringify [mkMod "a.jar" "H1"; mkMod "b.jar" "H2"]);
             WriteFile "/home/rylor/Code/node-mc/minecraft/clientmods.json"
               "[]"].
Proof.
  split; [reflexivity|].
  apply (proj2 (scan_rewrites_mods_json
                  [("a.jar", File "H1"); ("b.jar", File "H2")]
                  (example_Mc [mkMod "a.jar" "H1"; mkMod "b.jar" "H2"]))).
  reflexivity.
Defined.

(** ** [removeWorld] *)

(** Induction on a directory tree, with the property known of every entry
    of a directory. *)
Lemma node_tree_ind (P : node -> Prop) :
  (forall digest, P (File digest)) ->
  (forall entries, Forall (fun e => P (snd e)) entries -> P (Dir entries)) ->
  forall n, P n.
Proof.
  intros HF HD. fix IH 1. intros [digest|entries]; [apply HF|].
  apply HD. induction entries as [|e entries IHes]; constructor; [apply IH|].
  exact IHes.
Qed.

(** On a directory, [deleteFolderRecursive] returns and leaves nothing: the
    last call removes the directory itself. *)
Lemma deleteFolderRecursive_Dir (n : node) :
  forall path,
    isDirectory n = true ->
    exists calls,
      deleteFolderRecursive path n = Ok (None, calls ++ [RmdirSync path]).
Proof.
  induction n as [digest|entries IH] using node_tree_ind; intros path Hdir;
    [done|].
  simpl.
  match goal with
  | |- context [bind (?f entries) _] =>
      assert (exists calls, f entries = Ok ([], calls)) as [calls ->]
  end.
  { clear Hdir. induction IH as [|[file child] es Hchild _ IHes];
      [by eexists|].
    destruct IHes as [c2 Hc2]. simpl in Hchild.
    destruct child as [digest|sub].
    - rewrite Hc2. simpl. by eexists.
    - destruct (Hchild (path ++ "/" ++ file)%string eq_refl) as [c1 Hc1].
      rewrite Hc1. simpl. rewrite Hc2. simpl. by eexists. }
  simpl. by eexists.
Qed.

(** X21: the checks of [removeWorld(name)] in their order, where the world
    path holds a directory or nothing.  An empty name: [INVOKE], nothing
    touched, whatever the process and the disk.  Otherwise, the process
    running: [PTY], nothing touched, whatever the disk.  Otherwise, nothing
    at the world path: [NOTEXIST], nothing touched.  Otherwise, a directory
    at the world path: the calls made on the disk are exactly those of
    [deleteFolderRecursive] on the world path, the last of them removes the
    world directory itself, nothing is left at the path, and the call
    succeeds. *)
Theorem removeWorld_checks_in_order (name : string) (world : option node)
    (mc : Mc) :
  (name = EmptyString ->
   removeWorld name world mc
   = Ok (mkResponse false (Some "INVOKE"), world, mc))
  /\ (name <> EmptyString -> isPtyRunning mc = true ->
      removeWorld name world mc
      = Ok (mkResponse false (Some "PTY"), world, mc))
  /\ (name <> EmptyString -> isPtyRunning mc = false -> world = None ->
      removeWorld name world mc
      = Ok (mkResponse false (Some "NOTEXIST"), None, mc))
  /\ (name <> EmptyString -> isPtyRunning mc = false ->
      forall entries, world = Some (Dir entries) ->
      exists calls,
        deleteFolderRecursive (path_join (minecraft_dir mc) name) (Dir entries)
        = Ok (None, calls ++ [RmdirSync (path_join (minecraft_dir mc) name)])
        /\ removeWorld name world mc
           = Ok (mkResponse true None, None,
                 fs_do_all
                   (calls ++ [RmdirSync (path_join (minecraft_dir mc) name)])
                   mc)).
Proof.
  assert (forall n : string, n <> EmptyString -> truthy (JString n) = true)
    as Hname by (intros [|c n]; done).
  unfold removeWorld. repeat split.
  - by intros ->.
  - intros Hn Hrun. by rewrite (Hname _ Hn), Hrun.
  - intros Hn Hrun ->. by rewrite (Hname _ Hn), Hrun.
  - intros Hn Hrun entries ->. rewrite (Hname _ Hn), Hrun. simpl negb.
    cbv iota.
    destruct (deleteFolderRecursive_Dir (Dir entries)
                (path_join (minecraft_dir mc) name) eq_refl) as [calls Hcalls].
    exists calls. split; [exact Hcalls|]. by rewrite Hcalls.
Qed.

(** The four outcomes on a small server directory. *)
Example removeWorld_outcomes :
  let world :=
    Some (Dir [("level.dat", File "0a1b"); ("region", Dir [("r.0.0.mca", File "2c3d")])]) in
  let stopped := example_Mc [] in
  let started := startServer None None (example_Mc []) in
  removeWorld EmptyString world stopped
  = Ok (mkResponse false (Some "INVOKE"), world, stopped)
  /\ removeWorld "world" world started
     = Ok (mkResponse false (Some "PTY"), world, started)
  /\ removeWorld "world" None stopped
     = Ok (mkResponse false (Some "NOTEXIST"), None, stopped)
  /\ removeWorld "world" world stopped
     = Ok (mkResponse true None, None,
           fs_do_all
             [UnlinkSync "/home/rylor/Code/node-mc/minecraft/world/level.dat";
              UnlinkSync
                "/home/rylor/Code/node-mc/minecraft/world/region/r.0.0.mca";
              RmdirSync "/home/rylor/Code/node-mc/minecraft/world/region";
              RmdirSync "/home/rylor/Code/node-mc/minecraft/world"]
             stopped).
Proof. repeat split. Qed.

(** C6, where the code departs from it: with a non-empty name and the
    process not running, a world path that exists as a regular file passes
    the [fs.existsSync] check, and [deleteFolderRecursive] calls
    [fs.readdirSync] on it, which throws [ENOTDIR].  [removeWorld] returns
    no response object, neither [NOTEXIST] nor success, and nothing is
    deleted. *)
Theorem removeWorld_regular_file_throws (name digest : string) (mc : Mc) :
  name <> EmptyString ->
  isPtyRunning mc = false ->
  existsSync [(name, File digest)] name = true
  /\ removeWorld name (Some (File digest)) mc
     = Throw (ENOTDIR (path_join (minecraft_dir mc) name)).
Proof.
  intros Hname Hrun. split.
  - unfold existsSync. simpl. by rewrite String.eqb_refl.
  - unfold removeWorld. rewrite Hrun. by destruct name.
Qed.

(** [eula.txt] is a regular file of the server directory. *)
Lemma removeWorld_regular_file_throws_witness :
  "eula.txt" <> EmptyString
  /\ isPtyRunning (example_Mc []) = false
  /\ existsSync [("eula.txt", File "5b8f3c1e")] "eula.txt" = true
  /\ removeWorld "eula.txt" (Some (File "5b8f3c1e")) (example_Mc [])
     = Throw (ENOTDIR "/home/rylor/Code/node-mc/minecraft/eula.txt").
Proof.
  split; [discriminate|]. split; [reflexivity|].
  apply (removeWorld_regular_file_throws "eula.txt" "5b8f3c1e" (example_Mc []));
    [discriminate | reflexivity].
Defined.

(** * Further properties of the class *)

(** ** [getRegexMatches] *)

Lemma span_spec p s run rest :
  Str.span p s = (run, rest) ->
  s = (run ++ rest)%string /\ all_chars p run = true.
Proof.
  revert run rest; induction s as [|c s IH]; intros run rest; simpl.
  - by intros [= <- <-].
  - destruct (p c) eqn:Hp.
    + destruct (Str.span p s) as [run' rest'] eqn:E. intros [= <- <-].
      destruct (IH _ _ eq_refl) as [-> Hall]. simpl. by rewrite Hp, Hall.
    + by intros [= <- <-].
Qed.

Lemma chr_eq n c : Chars.chr n c = true -> c = ascii_of_nat n.
Proof.
  unfold Chars.chr, Chars.code. intros H%Nat.eqb_eq.
  by rewrite <- H, ascii_nat_embedding.
Qed.

Lemma ctags_here_spec s len g :
  regex.ctags_here s = Some (len, g) ->
  exists t rest,
    t <> EmptyString /\ all_chars regex.ctags_class t = true
    /\ s = ("[" ++ t ++ "]" ++ rest)%string
    /\ len = String.length t + 2 /\ g = [Some t].
Proof.
  unfold regex.ctags_here. destruct s as [|c0 s1]; [done|].
  destruct (Chars.chr Chars.lbracket c0) eqn:H0; [|done].
  destruct (Str.span regex.ctags_class s1) as [run rest] eqn:E.
  destruct run as [|r0 run]; [done|]. destruct rest as [|c1 rest]; [done|].
  destruct (Chars.chr Chars.rbracket c1) eqn:H1; [|done].
  intros [= <- <-]. apply chr_eq in H0 as ->. apply chr_eq in H1 as ->.
  destruct (span_spec _ _ _ _ E) as [-> Hall].
  exists (String r0 run), rest.
  split_and!; [done | done | | simpl; lia | done].
  done.
Qed.

(** The array of a successful [exec]: the matched text and the groups of a
    match of the pattern somewhere in the string. *)
Lemma exec_Some_shape r s m r' :
  exec r s = (Some m, r') ->
  exists i len g,
    i <= String.length s
    /\ re_here r (Str.drop i s) = Some (len, g)
    /\ m = JString (Str.take len (Str.drop i s)) :: map of_capture g
    /\ re_here r' = re_here r /\ re_global r' = re_global r.
Proof.
  unfold exec. destruct (_ <? _) eqn:Hlt; [done|]. apply Nat.ltb_ge in Hlt.
  destruct (search _ _ _) as [[[i len] g]|] eqn:E; [|done].
  intros [= <- <-]. apply search_Some in E as (Hle & Hlen & Hm).
  rewrite drop_length in Hlen. rewrite drop_drop in Hm.
  exists i, len, g.
  replace ((if re_global r then lastIndex r else 0)
           + (i - (if re_global r then lastIndex r else 0))) with i in Hm by lia.
  split_and!; try done; try lia; by destruct (re_global r) eqn:Hg.
Qed.

Lemma exec_None_shape r s r' :
  exec r s = (None, r') -> re_here r' = re_here r /\ re_global r' = re_global r.
Proof. by intros ->%exec_None. Qed.

(** What the loop pushes for a match array. *)
Lemma getRegexMatches_loop_Forall (P : jsval -> Prop) here s :
  (forall i len g,
      i <= String.length s -> here (Str.drop i s) = Some (len, g) ->
      let m := JString (Str.take len (Str.drop i s)) :: map of_capture g in
      P (if 2 <? length m then JArray (drop 1 m) else nth 1 m JUndefined)) ->
  forall fuel r matches m out r',
    re_here r = here ->
    Forall P matches ->
    (forall m0, m = Some m0 ->
       P (if 2 <? length m0 then JArray (drop 1 m0) else nth 1 m0 JUndefined)) ->
    getRegexMatches_loop fuel r s matches m = Some (out, r') ->
    Forall P out.
Proof.
  intros HP. induction fuel as [|fuel IH]; intros r matches m out r' Hr Hms Hm;
    [done|]. simpl.
  destruct m as [m0|]; [|by intros [= <- <-]].
  destruct (exec r s) as [next r1] eqn:E. intros Hloop.
  assert (Forall P (if 2 <? length m0
                    then matches ++ [JArray (drop 1 m0)]
                    else matches ++ [nth 1 m0 JUndefined])) as Hms'.
  { specialize (Hm m0 eq_refl).
    destruct (2 <? length m0); apply Forall_app; split; auto. }
  destruct next as [m1|].
  - destruct (exec_Some_shape _ _ _ _ E) as (i & len & g & Hi & Hh & -> & Hr1 & _).
    eapply (IH r1); [by rewrite Hr1 | exact Hms' | | exact Hloop].
    intros m0' [= <-]. apply HP; [done | by rewrite <- Hr].
  - destruct (exec_None_shape _ _ _ E) as [Hr1 _].
    eapply (IH r1 _ None); [by rewrite Hr1 | exact Hms' | done | exact Hloop].
Qed.

Lemma getRegexMatches_Forall (P : jsval -> Prop) fuel r s out v :
  (forall i len g,
      i <= String.length s -> re_here r (Str.drop i s) = Some (len, g) ->
      let m := JString (Str.take len (Str.drop i s)) :: map of_capture g in
      P (if 2 <? length m then JArray (drop 1 m) else nth 1 m JUndefined)) ->
  getRegexMatches fuel (JRegExp r) s = Some (JArray out, v) ->
  Forall P out.
Proof.
  intros HP. unfold getRegexMatches.
  destruct (exec r s) as [m r1] eqn:E.
  destruct (getRegexMatches_loop _ _ _ _ _) as [[out' r2]|] eqn:Hloop; [|done].
  intros [= <- _].
  eapply (getRegexMatches_loop_Forall P (re_here r) s HP _ r1 [] m);
    [| constructor | | exact Hloop].
  - destruct m; [by destruct (exec_Some_shape _ _ _ _ E) as (?&?&?&?&?&?&?&?)
                |by destruct (exec_None_shape _ _ _ E)].
  - intros m0 ->.
    destruct (exec_Some_shape _ _ _ _ E) as (i & len & g & Hi & Hh & -> & _).
    by apply HP.
Qed.

Lemma ctags_elements_are_tags fuel li chunk tags v :
  getRegexMatches fuel (JRegExp (regex.ctags li)) chunk = Some (JArray tags, v) ->
  Forall (is_tag_of chunk) tags.
Proof.
  apply getRegexMatches_Forall.
  intros i len g Hi Hh. simpl in Hh.
  destruct (ctags_here_spec _ _ _ Hh) as (t & rest & Hne & Hall & Hs & -> & ->).
  simpl. exists t, i. repeat split; [done | done |]. by exists rest.
Qed.

(** X1: for every chunk, whatever [lastIndex] the expression was left at,
    [getRegexMatches(regex.ctags, chunk)] returns an array, leaves
    [lastIndex] at 0, and every element of the array is a tag of the chunk:
    a non-empty string of tag characters that stands between brackets
    somewhere in the chunk. *)
Theorem ctags_matches_are_tags (chunk : string) (li : nat) :
  exists tags,
    getRegexMatches (String.length chunk + 2) (JRegExp (regex.ctags li)) chunk
    = Some (JArray tags, JRegExp (regex.ctags 0))
    /\ Forall (is_tag_of chunk) tags.
Proof.
  destruct (getRegexMatches_total (regex.ctags li) chunk eq_refl ctags_advances)
    as [tags Htags].
  exists tags. split; [exact Htags|]. by eapply ctags_elements_are_tags.
Qed.

Lemma getRegexMatches_loop_never fuel :
  forall r s matches m,
    re_global r = false -> fst (exec r s) = Some m ->
    forall m0, getRegexMatches_loop fuel r s matches (Some m0) = None.
Proof.
  induction fuel as [|fuel IH]; intros r s matches m Hg Hm m0; [done|].
  simpl. destruct (exec r s) as [next r'] eqn:E. simpl in Hm. subst next.
  assert (r' = r) as ->.
  { revert E. unfold exec. rewrite Hg. destruct (_ <? _); [done|].
    destruct (search _ _ _) as [[[i len] g]|]; [|done]. by intros [= _ <-]. }
  eapply IH; [done|]. by rewrite E.
Qed.

(** X2: an expression without the [g] flag.  When its pattern occurs in the
    string, [getRegexMatches] never returns, whatever the number of turns of
    its loop ([exec] finds the same first match again and again); when the
    pattern does not occur, it returns the empty array. *)
Theorem getRegexMatches_without_g_flag (r : RegExp) (s : string) :
  re_global r = false ->
  match search (re_here r) s 0 with
  | Some _ => forall fuel, getRegexMatches fuel (JRegExp r) s = None
  | None =>
      forall fuel, 0 < fuel ->
      exists v, getRegexMatches fuel (JRegExp r) s = Some (JArray [], v)
  end.
Proof.
  intros Hg.
  assert (exec r s
          = match search (re_here r) s 0 with
            | Some (i, len, g) =>
                (Some (JString (Str.take len (Str.drop i s)) :: map of_capture g), r)
            | None => (None, set_lastIndex r 0)
            end) as Hexec.
  { unfold exec. rewrite Hg. simpl.
    by destruct (search (re_here r) s 0) as [[[i len] g]|]. }
  destruct (search (re_here r) s 0) as [[[i len] g]|] eqn:E.
  - intros fuel. unfold getRegexMatches. rewrite Hexec.
    erewrite getRegexMatches_loop_never; [done | done |].
    by rewrite Hexec.
  - intros [|fuel] Hfuel; [lia|]. unfold getRegexMatches. rewrite Hexec.
    simpl. by eexists.
Qed.

Lemma getRegexMatches_without_g_flag_witness :
  re_global (mkRegExp regex.cdone_here false 0) = false
  /\ forall fuel,
       getRegexMatches fuel (JRegExp (mkRegExp regex.cdone_here false 0))
         "Done (3.21s)! For help, type..." = None.
Proof.
  split; [reflexivity|].
  exact (getRegexMatches_without_g_flag (mkRegExp regex.cdone_here false 0)
           "Done (3.21s)! For help, type..." eq_refl).
Defined.

(** X3: every element of the returned array comes from one match of the
    pattern in the string: there is a position of the string at which the
    pattern matches, and the element is made of the groups of that match.
    With two groups or more it is the array of the groups (the matched
    text is left out); with one group it is that group; with no group it
    is [undefined]. *)
Theorem getRegexMatches_elements (fuel : nat) (r : RegExp) (s : string)
    (out : list jsval) (v : jsval) :
  getRegexMatches fuel (JRegExp r) s = Some (JArray out, v) ->
  Forall
    (fun x =>
       exists i len g,
         i <= String.length s
         /\ re_here r (Str.drop i s) = Some (len, g)
         /\ x = match g with
                | [] => JUndefined
                | [c] => of_capture c
                | _ :: _ :: _ => JArray (map of_capture g)
                end) out.
Proof.
  apply getRegexMatches_Forall.
  intros i len g Hi Hh. exists i, len, g. split; [done|]. split; [done|].
  by destruct g as [|c [|c' g]].
Qed.

Lemma getRegexMatches_elements_witness :
  getRegexMatches 3 (JRegExp (regex.cinfo 0)) ready_chunk
  = Some (JArray [JArray [JString "[12:00:00]";
                          JString "[Server thread/INFO]: "]],
          JRegExp (regex.cinfo 0))
  /\ Forall
       (fun x =>
          exists i len g,
            i <= String.length ready_chunk
            /\ regex.cinfo_here (Str.drop i ready_chunk) = Some (len, g)
            /\ x = match g with
                   | [] => JUndefined
                   | [c] => of_capture c
                   | _ :: _ :: _ => JArray (map of_capture g)
                   end)
       [JArray [JString "[12:00:00]"; JString "[Server thread/INFO]: "]].
Proof.
  split; [reflexivity|].
  exact (getRegexMatches_elements 3 (regex.cinfo 0) ready_chunk
           [JArray [JString "[12:00:00]"; JString "[Server thread/INFO]: "]]
           (JRegExp (regex.cinfo 0)) eq_refl).
Defined.

(** ** The console handler, continued *)

Lemma all_chars_filter_1 p s : all_chars p (Str.filter p s) = true.
Proof.
  induction s as [|c s IH]; simpl; [done|].
  destruct (p c) eqn:Hp; simpl; [by rewrite Hp|done].
Qed.

Lemma all_chars_filter_2 p q s :
  all_chars p s = true -> all_chars p (Str.filter q s) = true.
Proof.
  induction s as [|c s IH]; simpl; [done|].
  intros [Hc Hs]%andb_prop. destruct (q c); simpl; [by rewrite Hc, IH|auto].
Qed.

Lemma all_chars_strip_prefix p pat s rest :
  all_chars p s = true -> Str.strip_prefix pat s = Some rest ->
  all_chars p rest = true.
Proof.
  revert s; induction pat as [|a pat IH]; intros s; simpl.
  - by intros ? [= <-].
  - destruct s as [|c s]; [done|]. simpl. intros [_ Hs]%andb_prop.
    destruct (Ascii.eqb a c); [by apply IH|done].
Qed.

Lemma all_chars_remove_first p pat s :
  all_chars p s = true -> all_chars p (Str.remove_first pat s) = true.
Proof.
  induction s as [|c s IH]; intros Hs.
  - simpl. destruct (Str.strip_prefix pat EmptyString) eqn:E; [|done].
    by eapply all_chars_strip_prefix.
  - simpl Str.remove_first.
    destruct (Str.strip_prefix pat (String c s)) eqn:E;
      [by eapply all_chars_strip_prefix|].
    simpl in *. apply andb_prop in Hs as [Hc Hs]. by rewrite Hc, IH.
Qed.

Lemma all_chars_and p q s :
  all_chars p s = true -> all_chars q s = true ->
  all_chars (fun c => p c && q c) s = true.
Proof.
  induction s as [|c s IH]; simpl; [done|].
  intros [-> Hp]%andb_prop [-> Hq]%andb_prop. simpl. by apply IH.
Qed.

Lemma clean_single_line data_ :
  all_chars (fun c => negb (Chars.chr 13 c) && negb (Chars.chr 10 c))
    (clean data_) = true.
Proof.
  unfold clean. apply all_chars_remove_first. apply all_chars_and.
  - apply all_chars_filter_2, all_chars_filter_1.
  - apply all_chars_filter_1.
Qed.

(** X4: what a [console] event carries.  For every chunk and every state
    the handler returns, and a [console] event it emits carries exactly the
    array that [getRegexMatches(regex.ctags, chunk)] returned, in its
    order, followed by the cleaned message [cinfo]; every element of that
    array is a tag of the chunk, the message holds no carriage return and
    no line feed, and the event is emitted whenever the guard on the first
    element holds. *)
Theorem console_event_shape (chunk : string) (mc : Mc) :
  exists mc' new tags,
    on_data chunk mc = Ok mc'
    /\ emitted mc' = emitted mc ++ new
    /\ getRegexMatches (String.length chunk + 2)
         (JRegExp (regex.ctags (ctags_lastIndex (regex_state mc)))) chunk
       = Some (JArray tags, JRegExp (regex.ctags 0))
    /\ Forall (is_tag_of chunk) tags
    /\ all_chars (fun c => negb (Chars.chr 13 c) && negb (Chars.chr 10 c))
         (clean chunk) = true
    /\ (forall res,
          In ("console", PArray res) new ->
          res = tags ++ [JString (clean chunk)])
    /\ (console_guard (tags ++ [JString (clean chunk)]) = true ->
        In ("console", PArray (tags ++ [JString (clean chunk)])) new).
Proof.
  destruct (on_data_spec chunk mc) as (mc' & tags & Hrun & Htags & Hemit & _).
  exists mc'. eexists. exists tags.
  split; [done|]. split; [exact Hemit|]. split; [exact Htags|].
  split; [by eapply ctags_elements_are_tags|].
  split; [apply clean_single_line|]. split.
  - intros res Hin. apply in_app_or in Hin as [Hin|Hin].
    + destruct (console_guard _); [|done]. by destruct Hin as [[= <-]|[]].
    + destruct (fst (exec _ _)); [|done]. by destruct Hin as [[=]|[]].
  - intros ->. by left.
Qed.

(** ** The command channel, continued *)

Lemma op_is_sendCommand player mc :
  op player mc = sendCommand ("op " ++ player) mc
  /\ deop player mc = sendCommand ("deop " ++ player) mc.
Proof.
  unfold op, deop, sendCommand, writeToPty.
  by destruct (isPtyRunning mc).
Qed.

Lemma handle_traces i s s' mc :
  pty_agrees s mc -> spec_lifecycle_step s i = Some s' ->
  finds_log i = true ->
  exists mc',
    handle i mc = Ok mc' /\ pty_agrees s' mc'
    /\ pty_input mc'
       = pty_input mc
         ++ match i with
            | Command cmd => if live s then [(cmd ++ CR)%string] else []
            | _ => []
            end
    /\ logfile mc' = chunks_logged [i] (logfile mc).
Proof.
  intros Hinv Hstep Hfinds.
  destruct (handle_agrees i s s' mc Hinv Hstep Hfinds) as (mc' & Hrun & Hinv').
  exists mc'. split; [done|]. split; [done|].
  destruct i as [opts dir | chunk | log_there | cmd]; simpl in *.
  - injection Hrun as <-. simpl. by rewrite app_nil_r.
  - destruct (on_data_spec chunk mc)
      as (mc1 & tags & Hrun1 & _ & _ & Hlog & Hin & _).
    rewrite Hrun1 in Hrun. injection Hrun as <-.
    by rewrite Hin, Hlog, app_nil_r.
  - subst log_there. injection Hrun as <-. simpl. by rewrite app_nil_r.
  - rewrite (sendCommand_agrees s cmd mc Hinv) in Hrun. simpl in Hrun.
    injection Hrun as <-. destruct (live s); simpl; [done|].
    by rewrite app_nil_r.
Qed.

Lemma chunks_logged_cons i tr acc :
  chunks_logged (i :: tr) acc = chunks_logged tr (chunks_logged [i] acc).
Proof. by destruct i. Qed.

Lemma run_traces tr :
  forall s s' mc,
    pty_agrees s mc -> spec_lifecycle tr s = Some s' ->
    exits_find_log tr = true ->
    exists mc',
      run tr mc = Ok mc' /\ pty_agrees s' mc'
      /\ pty_input mc' = pty_input mc ++ commands_while_live tr s
      /\ logfile mc' = chunks_logged tr (logfile mc).
Proof.
  induction tr as [|i tr IH]; intros s s' mc Hinv Hspec Hfinds;
    simpl in Hspec.
  - simplify_eq. exists mc. simpl. by rewrite app_nil_r.
  - destruct (spec_lifecycle_step s i) as [s1|] eqn:Hstep; [|done].
    simpl in Hfinds. apply andb_prop in Hfinds as [Hi Hfinds].
    destruct (handle_traces i s s1 mc Hinv Hstep Hi)
      as (mc1 & Hh & Hinv1 & Hin1 & Hlog1).
    destruct (IH s1 s' mc1 Hinv1 Hspec Hfinds)
      as (mc' & Hrun & Hinv' & Hin & Hlog).
    exists mc'. split_and!; [by simpl; rewrite Hh | done | |].
    + rewrite Hin, Hin1. simpl. rewrite Hstep. by rewrite app_assoc.
    + by rewrite chunks_logged_cons, Hlog, Hlog1.
Qed.

(** X5: [op(player)] and [deop(player)] are [sendCommand] of the command
    [op <player>] and [deop <player>], in every state of the object; so
    after any history that the lifecycle allows and in which every exit
    handler ran to its end (it found the log file it unlinks) they succeed
    and write that command with its carriage return exactly when the
    process is live, and return [false] and change nothing otherwise. *)
Theorem op_deop_after_history (tr : list input) (dir forge : string)
    (loaded : list ModRecord) (s : ServerLifecycleState) (player : string) :
  spec_lifecycle tr Stopped = Some s ->
  exits_find_log tr = true ->
  exists mc,
    run tr (new_Mc dir forge loaded) = Ok mc
    /\ op player mc = sendCommand ("op " ++ player) mc
    /\ deop player mc = sendCommand ("deop " ++ player) mc
    /\ op player mc
       = Ok (live s,
             if live s then term_write (("op " ++ player) ++ CR) mc else mc)
    /\ deop player mc
       = Ok (live s,
             if live s then term_write (("deop " ++ player) ++ CR) mc else mc).
Proof.
  intros Hspec Hfinds.
  destruct (run_agrees tr Stopped s (new_Mc dir forge loaded))
    as (mc & Hrun & Hinv); [done | done | done |].
  exists mc. destruct (op_is_sendCommand player mc) as [Hop Hdeop].
  split_and!; [done | done | done | |].
  - rewrite Hop. by apply sendCommand_agrees.
  - rewrite Hdeop. by apply sendCommand_agrees.
Qed.

Lemma op_deop_after_history_witness :
  spec_lifecycle [Start None None; Data ready_chunk] Stopped = Some Running
  /\ exits_find_log [Start None None; Data ready_chunk] = true
  /\ exists mc,
       run [Start None None; Data ready_chunk] (example_Mc []) = Ok mc
       /\ op "jaredallard" mc = sendCommand "op jaredallard" mc
       /\ deop "jaredallard" mc = sendCommand "deop jaredallard" mc
       /\ op "jaredallard" mc
          = Ok (true, term_write ("op jaredallard" ++ CR) mc)
       /\ deop "jaredallard" mc
          = Ok (true, term_write ("deop jaredallard" ++ CR) mc).
Proof.
  split; [reflexivity|]. split; [reflexivity|].
  exact (op_deop_after_history [Start None None; Data ready_chunk]
           "/home/rylor/Code/node-mc/minecraft" "1.8.9-11.15.1.1752" []
           Running "jaredallard" eq_refl eq_refl).
Defined.

(** X6: what reaches the terminal.  After any history that the lifecycle
    allows and in which every exit handler ran to its end (it found the log
    file it unlinks), the terminal has been written exactly the commands
    that were sent while the process was live, each followed by a carriage
    return, in the order in which they were sent: a command sent before the
    first start or after such an exit is dropped, and neither output nor an
    exit nor a restart writes to the terminal. *)
Theorem terminal_receives_live_commands (tr : list input)
    (dir forge : string) (loaded : list ModRecord)
    (s : ServerLifecycleState) :
  spec_lifecycle tr Stopped = Some s ->
  exits_find_log tr = true ->
  exists mc,
    run tr (new_Mc dir forge loaded) = Ok mc
    /\ pty_input mc = commands_while_live tr Stopped.
Proof.
  intros Hspec Hfinds.
  destruct (run_traces tr Stopped s (new_Mc dir forge loaded))
    as (mc & Hrun & _ & Hin & _); [done | done | done |].
  by exists mc.
Qed.

Lemma terminal_receives_live_commands_witness :
  spec_lifecycle
    [Command "list"; Start None None; Command "say hi"; Data ready_chunk;
     Command "stop"; Exit true; Command "list"] Stopped
  = Some StoppedAfterExit
  /\ exits_find_log
       [Command "list"; Start None None; Command "say hi"; Data ready_chunk;
        Command "stop"; Exit true; Command "list"] = true
  /\ exists mc,
       run [Command "list"; Start None None; Command "say hi";
            Data ready_chunk; Command "stop"; Exit true; Command "list"]
         (example_Mc []) = Ok mc
       /\ pty_input mc = [("say hi" ++ CR)%string; ("stop" ++ CR)%string].
Proof.
  split; [reflexivity|]. split; [reflexivity|].
  exact (terminal_receives_live_commands
           [Command "list"; Start None None; Command "say hi";
            Data ready_chunk; Command "stop"; Exit true; Command "list"]
           "/home/rylor/Code/node-mc/minecraft" "1.8.9-11.15.1.1752" []
           StoppedAfterExit eq_refl eq_refl).
Defined.

(** X7: what the log holds.  After any history that the lifecycle allows
    and in which every exit handler ran to its end (it found the log file
    it unlinks), the log stream has been written exactly the chunks
    received since the last start, raw, each followed by a line feed, in
    the order of their arrival; a start opens the log anew, and commands
    and the exit write nothing to it. *)
Theorem log_holds_chunks_since_start (tr : list input)
    (dir forge : string) (loaded : list ModRecord)
    (s : ServerLifecycleState) :
  spec_lifecycle tr Stopped = Some s ->
  exits_find_log tr = true ->
  exists mc,
    run tr (new_Mc dir forge loaded) = Ok mc
    /\ logfile mc = chunks_logged tr [].
Proof.
  intros Hspec Hfinds.
  destruct (run_traces tr Stopped s (new_Mc dir forge loaded))
    as (mc & Hrun & _ & _ & Hlog); [done | done | done |].
  by exists mc.
Qed.

Lemma log_holds_chunks_since_start_witness :
  spec_lifecycle
    [Start None None; Data "[12:00:00] first"; Exit true; Start None None;
     Data ready_chunk; Command "list"; Data "[12:00:09] players online"]
    Stopped = Some Running
  /\ exits_find_log
       [Start None None; Data "[12:00:00] first"; Exit true; Start None None;
        Data ready_chunk; Command "list"; Data "[12:00:09] players online"]
     = true
  /\ exists mc,
       run [Start None None; Data "[12:00:00] first"; Exit true;
            Start None None;
            Data ready_chunk; Command "list";
            Data "[12:00:09] players online"]
         (example_Mc []) = Ok mc
       /\ logfile mc
          = [(ready_chunk ++ LF)%string;
             ("[12:00:09] players online" ++ LF)%string].
Proof.
  split; [reflexivity|]. split; [reflexivity|].
  exact (log_holds_chunks_since_start
           [Start None None; Data "[12:00:00] first"; Exit true;
            Start None None; Data ready_chunk; Command "list";
            Data "[12:00:09] players online"]
           "/home/rylor/Code/node-mc/minecraft" "1.8.9-11.15.1.1752" []
           Running eq_refl eq_refl).
Defined.

(** ** The deletion pass *)

Lemma deletion_loop_spec fuel :
  forall entries k l q0 l' q,
    deletion_loop fuel entries k k l q0 = Some (l', q) ->
    exists qn,
      q = q0 ++ qn
      /\ Permutation l (l' ++ map data qn)
      /\ sublist l' l
      /\ Forall
           (fun e =>
              event e = "modDeletion"
              /\ existsSync entries (filename (data e)) = false) qn.
Proof.
  induction fuel as [|fuel IH]; intros entries k l q0 l' q; [done|].
  simpl. destruct (l !! k) as [r|] eqn:Hk.
  - destruct (existsSync entries (filename r)) eqn:Hex; simpl; intros Hloop.
    + by apply IH in Hloop.
    + apply IH in Hloop as (qn & -> & Hperm & Hsub & Hall).
      exists (mkModEvent r "modDeletion" :: qn).
      split_and!.
      * by rewrite <- app_assoc.
      * simpl. rewrite <- Permutation_middle.
        rewrite (delete_Permutation l k r Hk). by constructor.
      * etrans; [exact Hsub | apply sublist_delete].
      * by constructor.
  - intros [= <- <-]. exists []. rewrite !app_nil_r.
    split_and!; [done | done | done | constructor].
Qed.

(** X8: the deletion pass sorts the manifest into two parts and loses
    nothing.  For every manifest and every mod directory it ends; the
    records it keeps and the records it reports are together the manifest
    it started from, each record once; the kept records stay in their
    order; every reported record is queued as [modDeletion] and has no file
    in the directory; and a record whose file is there is never removed. *)
Theorem deletion_pass_partition (entries : list (string * node))
    (l : list ModRecord) :
  exists l' q,
    deletion_loop (S (length l)) entries 0 0 l [] = Some (l', q)
    /\ Permutation l (l' ++ map data q)
    /\ sublist l' l
    /\ Forall
         (fun e =>
            event e = "modDeletion"
            /\ existsSync entries (filename (data e)) = false) q
    /\ forall r,
         In r l -> existsSync entries (filename r) = true -> In r l'.
Proof.
  destruct (deletion_loop_total (S (length l)) entries 0 0 l [])
    as [[l' q] Hloop]; [lia|].
  exists l', q. split; [done|].
  destruct (deletion_loop_spec _ _ _ _ _ _ _ Hloop)
    as (qn & Hq & Hperm & Hsub & Hall).
  simpl in Hq. subst qn. split_and!; [done | done | done |].
  intros r Hin Hex.
  apply (Permutation_in _ Hperm) in Hin. apply in_app_or in Hin as [|Hin];
    [done|].
  apply in_map_iff in Hin as (e & <- & Hin).
  rewrite Forall_forall in Hall. apply list_elem_of_In, Hall in Hin as [_ Hno].
  congruence.
Qed.

Lemma no_adjacent_missing_tail entries r rest :
  no_adjacent_missing entries (r :: rest) = true ->
  no_adjacent_missing entries rest = true.
Proof.
  destruct rest as [|r' rest]; [done|]. simpl. by intros [_ ?]%andb_prop.
Qed.

Lemma deletion_loop_no_adjacent fuel :
  forall entries pre rest q,
    length rest < fuel ->
    no_adjacent_missing entries rest = true ->
    deletion_loop fuel entries (length pre) (length pre) (pre ++ rest) q
    = Some (pre ++ List.filter (fun r => existsSync entries (filename r)) rest,
            q ++ map (fun r => mkModEvent r "modDeletion")
                   (List.filter
                      (fun r => negb (existsSync entries (filename r))) rest)).
Proof.
  induction fuel as [|fuel IH]; intros entries pre rest q Hfuel Hadj; [lia|].
  simpl deletion_loop. destruct rest as [|r rest].
  - rewrite app_nil_r, (lookup_ge_None_2 pre (length pre)) by lia.
    simpl. by rewrite !app_nil_r.
  - rewrite list_lookup_middle by done.
    pose proof (no_adjacent_missing_tail _ _ _ Hadj) as Hadj'.
    simpl in Hfuel. simpl List.filter.
    destruct (existsSync entries (filename r)) eqn:Hex; simpl negb; cbv iota.
    + replace (pre ++ r :: rest) with ((pre ++ [r]) ++ rest)
        by (by rewrite <- app_assoc).
      replace (S (length pre)) with (length (pre ++ [r]))
        by (rewrite length_app; simpl; lia).
      rewrite IH by (done || lia). by rewrite <- app_assoc.
    + rewrite delete_middle.
      destruct rest as [|r' rest].
      * destruct fuel as [|fuel]; [simpl in Hfuel; lia|].
        simpl. rewrite app_nil_r, (lookup_ge_None_2 pre (S (length pre))) by lia.
        done.
      * assert (existsSync entries (filename r') = true) as Hex'.
        { simpl in Hadj. apply andb_prop in Hadj as [Hor _].
          rewrite Hex in Hor. done. }
        replace (pre ++ r' :: rest) with ((pre ++ [r']) ++ rest)
          by (by rewrite <- app_assoc).
        replace (S (length pre)) with (length (pre ++ [r']))
          by (rewrite length_app; simpl; lia).
        rewrite IH;
          [| simpl in Hfuel; lia | by eapply no_adjacent_missing_tail].
        simpl List.filter. rewrite Hex'. simpl.
        by rewrite <- !app_assoc.
Qed.

(** X9: when no two neighbours of the manifest are both without their file,
    the deletion pass is exact: it keeps exactly the records whose file is
    in the directory, in their order, and queues one [modDeletion] for each
    of the others, in their order. *)
Theorem deletion_pass_exact (entries : list (string * node))
    (l : list ModRecord) :
  no_adjacent_missing entries l = true ->
  deletion_loop (S (length l)) entries 0 0 l []
  = Some (List.filter (fun r => existsSync entries (filename r)) l,
          map (fun r => mkModEvent r "modDeletion")
            (List.filter (fun r => negb (existsSync entries (filename r))) l)).
Proof.
  intros Hadj.
  exact (deletion_loop_no_adjacent (S (length l)) entries [] l []
           (Nat.lt_succ_diag_r _) Hadj).
Qed.

Lemma deletion_pass_exact_witness :
  no_adjacent_missing [("b.jar", File "H2"); ("d.jar", File "H4")]
    [mkMod "a.jar" "H1"; mkMod "b.jar" "H2"; mkMod "c.jar" "H3";
     mkMod "d.jar" "H4"] = true
  /\ deletion_loop 5 [("b.jar", File "H2"); ("d.jar", File "H4")] 0 0
       [mkMod "a.jar" "H1"; mkMod "b.jar" "H2"; mkMod "c.jar" "H3";
        mkMod "d.jar" "H4"] []
     = Some ([mkMod "b.jar" "H2"; mkMod "d.jar" "H4"],
             [mkModEvent (mkMod "a.jar" "H1") "modDeletion";
              mkModEvent (mkMod "c.jar" "H3") "modDeletion"]).
Proof.
  split; [reflexivity|].
  exact (deletion_pass_exact [("b.jar", File "H2"); ("d.jar", File "H4")]
           [mkMod "a.jar" "H1"; mkMod "b.jar" "H2"; mkMod "c.jar" "H3";
            mkMod "d.jar" "H4"] eq_refl).
Defined.

(** ** The addition pass and whole scans *)

Lemma installed_app name l A :
  installed name (l ++ A)
  = match installed name l with
    | Some r => Some r
    | None => installed name A
    end.
Proof.
  unfold installed. rewrite List.filter_app.
  by destruct (List.filter _ l).
Qed.

Lemma installed_None name l :
  ~ In name (map filename l) -> installed name l = None.
Proof.
  unfold installed. induction l as [|r l IH]; simpl; [done|].
  intros Hnot. destruct (String.eqb (filename r) name) eqn:E.
  - apply String.eqb_eq in E. tauto.
  - apply IH. tauto.
Qed.

Lemma installed_Some name l r :
  installed name l = Some r -> In r l /\ filename r = name.
Proof.
  unfold installed.
  destruct (List.filter _ l) as [|r0 rest] eqn:E; [done|]. intros [= ->].
  assert (In r (List.filter (fun obj => String.eqb (filename obj) name) l))
    as Hin by (rewrite E; by left).
  apply filter_In in Hin as [Hin Hname]. by apply String.eqb_eq in Hname.
Qed.

Lemma file_records_names entries r :
  In r (file_records entries) -> In (filename r) (map fst entries).
Proof.
  induction entries as [|[name [digest|es]] entries IH]; simpl; [done| |].
  - intros [<-|Hin]; [by left | right; by apply IH].
  - intros Hin. right. by apply IH.
Qed.

Lemma each_file_spec entries :
  forall l A q,
    NoDup (map fst entries) ->
    (forall r, In r A -> ~ In (filename r) (map fst entries)) ->
    each_file entries (l ++ A, q)
    = if changed entries l
      then Throw (TypeError "Cannot set property 'hash' of undefined")
      else Ok (l ++ A ++ new_files entries l,
               q ++ map (fun r => mkModEvent r "modAddition")
                      (new_files entries l)).
Proof.
  induction entries as [|[name n] entries IH]; intros l A q Hnd HA.
  - simpl. unfold new_files, changed. simpl. by rewrite !app_nil_r.
  - simpl in Hnd. apply NoDup_cons in Hnd as [Hname Hnd].
    assert (forall r, In r A -> ~ In (filename r) (map fst entries)) as HA'.
    { intros r Hr Hin. apply (HA r Hr). by right. }
    destruct n as [digest|es]; [|by apply IH].
    simpl each_file. unfold on_end.
    fold (installed name (l ++ A)). rewrite installed_app.
    unfold changed, new_files. simpl file_records. simpl existsb.
    simpl List.filter.
    fold (changed entries l). fold (new_files entries l).
    destruct (installed name l) as [r|] eqn:Hl.
    + destruct (String.eqb digest (hash r)); simpl; [by apply IH|done].
    + rewrite installed_None.
      2:{ intros Hin. apply in_map_iff in Hin as (r & Hr & Hin).
          apply (HA r Hin). left. done. }
      simpl. rewrite <- app_assoc. rewrite IH; [|done|].
      * destruct (changed entries l); [done|].
        by rewrite <- !app_assoc.
      * intros r [Hr|[<-|[]]]%in_app_or; [by apply HA'|].
        simpl. by rewrite <- list_elem_of_In.
Qed.

Lemma scan_passes_outcome (entries : list (string * node))
    (l l1 : list ModRecord) (q1 : list ModEvent) :
  NoDup (map fst entries) ->
  deletion_loop (S (length l)) entries 0 0 l [] = Some (l1, q1) ->
  scan_passes entries l
  = if changed entries l1
    then Throw (TypeError "Cannot set property 'hash' of undefined")
    else Ok (l1 ++ new_files entries l1,
             q1 ++ map (fun r => mkModEvent r "modAddition")
                     (new_files entries l1)).
Proof.
  intros Hnd Hdel. unfold scan_passes. rewrite Hdel. simpl.
  pose proof (each_file_spec entries l1 [] q1 Hnd) as Heach.
  rewrite app_nil_r in Heach. by rewrite Heach.
Qed.

(** X10: the outcome of a scan.  [entries] are the entries of the mod
    directory (no name twice) in the order in which their hash streams end.
    The scan throws exactly when some regular file has a record, among
    those the deletion pass left, with another digest.  Otherwise it runs
    to its end: the manifest is what the deletion pass left followed by one
    record for each regular file without a record, in the order in which
    their streams ended, and each of these is queued as [modAddition]
    behind the deletions. *)
Theorem scan_outcome (entries : list (string * node)) (mc : Mc)
    (l1 : list ModRecord) (q1 : list ModEvent) :
  NoDup (map fst entries) ->
  deletion_loop (S (length (mods mc))) entries 0 0 (mods mc) [] = Some (l1, q1) ->
  scanForNewMods entries mc
  = if changed entries l1
    then Throw (TypeError "Cannot set property 'hash' of undefined")
    else Ok (scan_finish
               (q1 ++ map (fun r => mkModEvent r "modAddition")
                        (new_files entries l1))
               (set_mods (l1 ++ new_files entries l1) mc)).
Proof.
  intros Hnd Hdel. unfold scanForNewMods.
  rewrite (scan_passes_outcome entries (mods mc) l1 q1 Hnd Hdel).
  by destruct (changed entries l1).
Qed.

Lemma scan_outcome_witness :
  NoDup (map fst [("a.jar", File "H1"); ("c.jar", File "H3");
                  ("config", Dir [])])
  /\ deletion_loop 3
       [("a.jar", File "H1"); ("c.jar", File "H3"); ("config", Dir [])] 0 0
       [mkMod "a.jar" "H1"; mkMod "b.jar" "H2"] []
     = Some ([mkMod "a.jar" "H1"],
             [mkModEvent (mkMod "b.jar" "H2") "modDeletion"])
  /\ scanForNewMods
       [("a.jar", File "H1"); ("c.jar", File "H3"); ("config", Dir [])]
       (example_Mc [mkMod "a.jar" "H1"; mkMod "b.jar" "H2"])
     = Ok (scan_finish
             [mkModEvent (mkMod "b.jar" "H2") "modDeletion";
              mkModEvent (mkMod "c.jar" "H3") "modAddition"]
             (set_mods [mkMod "a.jar" "H1"; mkMod "c.jar" "H3"]
                (example_Mc [mkMod "a.jar" "H1"; mkMod "b.jar" "H2"]))).
Proof.
  assert (NoDup (map fst [("a.jar", File "H1"); ("c.jar", File "H3");
                          ("config", Dir [])])) as Hnd.
  { by compute_done. }
  split; [exact Hnd|]. split; [reflexivity|].
  exact (scan_outcome
           [("a.jar", File "H1"); ("c.jar", File "H3"); ("config", Dir [])]
           (example_Mc [mkMod "a.jar" "H1"; mkMod "b.jar" "H2"])
           [mkMod "a.jar" "H1"]
           [mkModEvent (mkMod "b.jar" "H2") "modDeletion"] Hnd eq_refl).
Defined.

Lemma installed_None_inv name l :
  installed name l = None -> ~ In name (map filename l).
Proof.
  unfold installed. induction l as [|r l IH]; simpl; [tauto|].
  destruct (String.eqb (filename r) name) eqn:E; [done|].
  apply String.eqb_neq in E. intros Hl [?|?]; [done|]. by apply IH.
Qed.

Lemma on_end_NoDup name digest l q l' q' :
  NoDup (map filename l) ->
  on_end name digest (l, q) = Ok (l', q') ->
  NoDup (map filename l').
Proof.
  intros Hnd. unfold on_end. fold (installed name l).
  destruct (installed name l) as [r|] eqn:Hl.
  - destruct (negb _); [done|]. by intros [= <- _].
  - intros [= <- _]. rewrite map_app. apply NoDup_app. split_and!; [done| |].
    + intros x Hx Hx2. simpl in Hx2. apply list_elem_of_In in Hx2 as [<-|[]].
      apply (installed_None_inv _ _ Hl). by apply list_elem_of_In.
    + simpl. apply NoDup_singleton.
Qed.

Lemma each_file_NoDup entries :
  forall l q l' q',
    NoDup (map filename l) ->
    each_file entries (l, q) = Ok (l', q') ->
    NoDup (map filename l').
Proof.
  induction entries as [|[name n] entries IH]; intros l q l' q' Hnd;
    cbn [each_file].
  - by intros [= <- _].
  - destruct n as [digest|es]; [|by apply IH].
    destruct (on_end name digest (l, q)) as [[l1 q1]| |] eqn:E; cbn [bind];
      [|done|done].
    apply IH. by eapply on_end_NoDup.
Qed.

(** X11: a scan keeps the file names of the manifest unique.  If no two
    records of the manifest have the same file name, then after a scan that
    runs to its end no two records have the same file name either, whatever
    the directory holds. *)
Theorem scan_keeps_filenames_unique (entries : list (string * node))
    (mc mc' : Mc) :
  NoDup (map filename (mods mc)) ->
  scanForNewMods entries mc = Ok mc' ->
  NoDup (map filename (mods mc')).
Proof.
  intros Hnd Hscan.
  destruct (scanForNewMods_Ok _ _ _ Hscan) as (q & Hq & _).
  unfold scan_passes in Hq.
  destruct (deletion_loop _ _ _ _ _ _) as [[l1 q1]|] eqn:Hdel; [|done].
  simpl in Hq.
  destruct (deletion_loop_spec _ _ _ _ _ _ _ Hdel) as (_ & _ & _ & Hsub & _).
  eapply each_file_NoDup; [|exact Hq].
  eapply sublist_NoDup; [exact Hnd|].
  clear -Hsub. induction Hsub; simpl; by constructor.
Qed.

Lemma scan_keeps_filenames_unique_witness :
  NoDup (map filename
           (mods (example_Mc [mkMod "a.jar" "H1"; mkMod "b.jar" "H2"])))
  /\ scanForNewMods [("a.jar", File "H1"); ("c.jar", File "H3")]
       (example_Mc [mkMod "a.jar" "H1"; mkMod "b.jar" "H2"])
     = Ok (scan_finish
             [mkModEvent (mkMod "b.jar" "H2") "modDeletion";
              mkModEvent (mkMod "c.jar" "H3") "modAddition"]
             (set_mods [mkMod "a.jar" "H1"; mkMod "c.jar" "H3"]
                (example_Mc [mkMod "a.jar" "H1"; mkMod "b.jar" "H2"])))
  /\ NoDup (map filename [mkMod "a.jar" "H1"; mkMod "c.jar" "H3"]).
Proof.
  assert (NoDup (map filename
                   (mods (example_Mc [mkMod "a.jar" "H1"; mkMod "b.jar" "H2"]))))
    as Hnd by (by compute_done).
  split; [exact Hnd|]. split; [reflexivity|].
  exact (scan_keeps_filenames_unique
           [("a.jar", File "H1"); ("c.jar", File "H3")]
           (example_Mc [mkMod "a.jar" "H1"; mkMod "b.jar" "H2"])
           (scan_finish
              [mkModEvent (mkMod "b.jar" "H2") "modDeletion";
               mkModEvent (mkMod "c.jar" "H3") "modAddition"]
              (set_mods [mkMod "a.jar" "H1"; mkMod "c.jar" "H3"]
                 (example_Mc [mkMod "a.jar" "H1"; mkMod "b.jar" "H2"])))
           Hnd eq_refl).
Defined.

Lemma queued_map ev ev' (l : list ModRecord) :
  queued ev (map (fun r => mkModEvent r ev') l)
  = if String.eqb ev' ev then l else [].
Proof.
  unfold queued. induction l as [|r l IH]; simpl; [by destruct (String.eqb _ _)|].
  destruct (String.eqb ev' ev) eqn:E; simpl; [by rewrite IH|done].
Qed.

Lemma new_files_nil entries : new_files entries [] = file_records entries.
Proof.
  unfold new_files. induction (file_records entries) as [|r l IH]; simpl;
    [done|]. f_equal. exact IH.
Qed.

Lemma changed_nil entries : changed entries [] = false.
Proof.
  unfold changed. by induction (file_records entries) as [|r l IH].
Qed.

(** X12: the first scan.  [entries] are the entries of the mod directory
    (no name twice) in the order in which their hash streams end.  With an
    empty manifest the scan runs to its end; the manifest is then one
    record per regular file, with its digest, in the order in which the
    streams ended (directories are skipped); all of them go out in one
    [modAddition] event, or no event at all when there is no regular file;
    and that manifest is written to [mods.json]. *)
Theorem first_scan_adds_every_file (entries : list (string * node))
    (mc : Mc) :
  mods mc = [] ->
  NoDup (map fst entries) ->
  exists mc',
    scanForNewMods entries mc = Ok mc'
    /\ mods mc' = file_records entries
    /\ emitted mc'
       = emitted mc
         ++ match file_records entries with
            | [] => []
            | _ :: _ => [("modAddition", PMods (file_records entries))]
            end
    /\ fs_calls mc'
       = fs_calls mc
         ++ final_writes (minecraft_dir mc) (file_records entries).
Proof.
  intros Hempty Hnd.
  assert (scanForNewMods entries mc
          = Ok (scan_finish
                  (map (fun r => mkModEvent r "modAddition")
                     (file_records entries))
                  (set_mods (file_records entries) mc))) as Hscan.
  { unfold scanForNewMods.
    rewrite (scan_passes_outcome entries (mods mc) [] [] Hnd)
      by (by rewrite Hempty).
    by rewrite changed_nil, new_files_nil. }
  eexists. split; [exact Hscan|].
  destruct (scan_finish_spec
              (map (fun r => mkModEvent r "modAddition") (file_records entries))
              (set_mods (file_records entries) mc)) as (He & Hf & Hm & _).
  rewrite He, Hf, Hm. unfold batch. rewrite !queued_map. simpl.
  split_and!; [done | | done].
  destruct (file_records entries); simpl; by rewrite ?app_nil_r.
Qed.

Lemma first_scan_adds_every_file_witness :
  mods (example_Mc []) = []
  /\ NoDup (map fst [("a.jar", File "H1"); ("config", Dir []);
                     ("b.jar", File "H2")])
  /\ exists mc',
       scanForNewMods
         [("a.jar", File "H1"); ("config", Dir []); ("b.jar", File "H2")]
         (example_Mc []) = Ok mc'
       /\ mods mc' = [mkMod "a.jar" "H1"; mkMod "b.jar" "H2"]
       /\ emitted mc'
          = [("modAddition", PMods [mkMod "a.jar" "H1"; mkMod "b.jar" "H2"])]
       /\ fs_calls mc'
          = final_writes "/home/rylor/Code/node-mc/minecraft"
              [mkMod "a.jar" "H1"; mkMod "b.jar" "H2"].
Proof.
  assert (NoDup (map fst [("a.jar", File "H1"); ("config", Dir []);
                          ("b.jar", File "H2")])) as Hnd by (by compute_done).
  split; [reflexivity|]. split; [exact Hnd|].
  exact (first_scan_adds_every_file
           [("a.jar", File "H1"); ("config", Dir []); ("b.jar", File "H2")]
           (example_Mc []) eq_refl Hnd).
Defined.

(** ** [buildModDatabase] *)

Lemma build_each_spec entries :
  forall l, build_each entries l = l ++ file_records entries.
Proof.
  induction entries as [|[name [digest|es]] entries IH]; intros l; simpl.
  - by rewrite app_nil_r.
  - by rewrite IH, <- app_assoc.
  - apply IH.
Qed.

Lemma existsSync_In entries name :
  In name (map fst entries) -> existsSync entries name = true.
Proof.
  unfold existsSync. induction entries as [|[n x] entries IH]; simpl; [done|].
  destruct (String.eqb n name) eqn:E; [done|].
  apply String.eqb_neq in E. intros [?|?]; [done|]. by apply IH.
Qed.

Lemma installed_file_records entries name digest :
  NoDup (map fst entries) -> In (name, File digest) entries ->
  installed name (file_records entries) = Some (mkMod name digest).
Proof.
  unfold installed.
  induction entries as [|[n x] entries IH]; simpl; [done|].
  intros [Hn Hnd]%NoDup_cons [[= -> ->]|Hin].
  - simpl. by rewrite String.eqb_refl.
  - assert (String.eqb n name = false) as Hne.
    { apply String.eqb_neq. intros ->. apply Hn, list_elem_of_In.
      apply in_map_iff. by exists (name, File digest). }
    destruct x as [d|es]; simpl; [rewrite Hne|]; by apply IH.
Qed.

Lemma unchanged_file_records entries entries' :
  NoDup (map fst entries) -> Permutation entries entries' ->
  unchanged entries' (file_records entries) = true.
Proof.
  intros Hnd Hperm. unfold unchanged. apply andb_true_intro. split.
  - apply forallb_forall. intros r Hr. apply existsSync_In.
    apply (Permutation_in _ (Permutation_map fst Hperm)).
    by apply file_records_names.
  - apply forallb_forall. intros [name [digest|es]] Hin; simpl; [|done].
    apply (Permutation_in _ (Permutation_sym Hperm)) in Hin.
    fold (installed name (file_records entries)).
    rewrite (installed_file_records entries name digest Hnd Hin). simpl.
    apply String.eqb_refl.
Qed.

(** X13: building the database and scanning right after.  [entries] are
    the entries of the mod directory (no name twice) in the order in which
    their hash streams end during the build, and [entries'] the same
    entries in the order in which their streams end during the scan, which
    may be another.  With the empty manifest of a first run,
    [buildModDatabase] makes the manifest one record per regular file, with
    its digest, in the order in which the streams ended, publishes nothing
    and writes that manifest to [mods.json]; and a scan of the same
    directory with that manifest runs to its end, publishes nothing and
    leaves the manifest as it is, in whatever order its own streams end. *)
Theorem build_then_scan_is_quiet (entries entries' : list (string * node))
    (mc : Mc) :
  mods mc = [] ->
  NoDup (map fst entries) ->
  Permutation entries entries' ->
  let built := buildModDatabase (Some entries) mc in
  fst built = false
  /\ mods (snd built) = file_records entries
  /\ emitted (snd built) = emitted mc
  /\ fs_calls (snd built)
     = fs_calls mc
       ++ [WriteFile (path_join (minecraft_dir mc) "mods.json")
             (JSON.stringify (file_records entries))]
  /\ exists mc',
       scanForNewMods entries' (snd built) = Ok mc'
       /\ emitted mc' = emitted mc
       /\ mods mc' = file_records entries.
Proof.
  intros Hempty Hnd Hperm. simpl.
  rewrite build_each_spec, Hempty. simpl.
  split_and!; [done | done | done | done |].
  eexists. split.
  - apply unchanged_scan. simpl. by apply unchanged_file_records.
  - match goal with
    | |- context [scan_finish [] ?m] =>
        destruct (scan_finish_spec [] m) as (He & _ & Hm & _)
    end.
    rewrite He, Hm. simpl. by rewrite app_nil_r.
Qed.

(** The build sees the stream of [a.jar] end first, the scan that of
    [b.jar]. *)
Lemma build_then_scan_is_quiet_witness :
  mods (example_Mc []) = []
  /\ NoDup (map fst [("a.jar", File "H1"); ("config", Dir []);
                     ("b.jar", File "H2")])
  /\ Permutation
       [("a.jar", File "H1"); ("config", Dir []); ("b.jar", File "H2")]
       [("b.jar", File "H2"); ("a.jar", File "H1"); ("config", Dir [])]
  /\ mods (snd (buildModDatabase
                  (Some [("a.jar", File "H1"); ("config", Dir []);
                         ("b.jar", File "H2")]) (example_Mc [])))
     = [mkMod "a.jar" "H1"; mkMod "b.jar" "H2"]
  /\ exists mc',
       scanForNewMods
         [("b.jar", File "H2"); ("a.jar", File "H1"); ("config", Dir [])]
         (snd (buildModDatabase
                 (Some [("a.jar", File "H1"); ("config", Dir []);
                        ("b.jar", File "H2")]) (example_Mc []))) = Ok mc'
       /\ emitted mc' = []
       /\ mods mc' = [mkMod "a.jar" "H1"; mkMod "b.jar" "H2"].
Proof.
  assert (NoDup (map fst [("a.jar", File "H1"); ("config", Dir []);
                          ("b.jar", File "H2")])) as Hnd by (by compute_done).
  assert (Permutation
            [("a.jar", File "H1"); ("config", Dir []); ("b.jar", File "H2")]
            [("b.jar", File "H2"); ("a.jar", File "H1"); ("config", Dir [])])
    as Hperm.
  { apply Permutation_sym.
    apply (Permutation_cons_app [("a.jar", File "H1"); ("config", Dir [])] []).
    rewrite app_nil_r. apply Permutation_refl. }
  split; [reflexivity|]. split; [exact Hnd|]. split; [exact Hperm|].
  destruct (build_then_scan_is_quiet
              [("a.jar", File "H1"); ("config", Dir []); ("b.jar", File "H2")]
              [("b.jar", File "H2"); ("a.jar", File "H1"); ("config", Dir [])]
              (example_Mc []) eq_refl Hnd Hperm) as (_ & Hm & _ & _ & Hscan).
  split; [exact Hm | exact Hscan].
Defined.

(** ** The batches of a scan *)

(** X20: the last callback of a scan coalesces the event queue per kind,
    whatever the queue holds.  It publishes, in this order, at most one
    [modAddition], one [modDeletion] and one [modUpdated] event and nothing
    else; the event of a kind carries every record queued for that kind, in
    the order of the queue; and a kind with no queued record publishes
    nothing. *)
Theorem scan_finish_coalesces (q : list ModEvent) (mc : Mc) :
  exists new,
    emitted (scan_finish q mc) = emitted mc ++ new
    /\ new = batch "modAddition" q ++ batch "modDeletion" q
             ++ batch "modUpdated" q
    /\ (forall e, In e new ->
          In (fst e) ["modAddition"; "modDeletion"; "modUpdated"])
    /\ forall ev,
         In ev ["modAddition"; "modDeletion"; "modUpdated"] ->
         count (is_emission ev) new <= 1
         /\ (queued ev q = [] -> count (is_emission ev) new = 0)
         /\ (queued ev q <> [] -> In (ev, PMods (queued ev q)) new)
         /\ (forall arg, In (ev, arg) new ->
               arg = PMods (queued ev q) /\ queued ev q <> []).
Proof.
  destruct (scan_finish_spec q mc) as (He & _).
  eexists. split; [exact He|]. split; [reflexivity|].
  destruct (batch_spec "modAddition" q) as [[Ha ->] | [Ha ->]];
    destruct (batch_spec "modDeletion" q) as [[Hd ->] | [Hd ->]];
    destruct (batch_spec "modUpdated" q) as [[Hu ->] | [Hu ->]];
    (split; [simpl; intros e He'; intuition (subst; simpl; auto)|]);
    intros ev Hev; simpl in Hev;
    destruct Hev as [<- | [<- | [<- | []]]];
    (split; [unfold count; simpl; lia|]);
    (split; [try done; intros; unfold count; reflexivity|]);
    (split; [try done; intros; simpl; auto|]);
    simpl; intros arg Harg; intuition (simplify_eq; done).
Qed.

(** A queue with records of the three kinds. *)
Example scan_finish_three_batches :
  emitted
    (scan_finish
       [mkModEvent (mkMod "b.jar" "H2") "modDeletion";
        mkModEvent (mkMod "c.jar" "H3") "modAddition";
        mkModEvent (mkMod "a.jar" "H9") "modUpdated";
        mkModEvent (mkMod "d.jar" "H4") "modAddition"]
       (example_Mc []))
  = [("modAddition", PMods [mkMod "c.jar" "H3"; mkMod "d.jar" "H4"]);
     ("modDeletion", PMods [mkMod "b.jar" "H2"]);
     ("modUpdated", PMods [mkMod "a.jar" "H9"])].
Proof. reflexivity. Qed.

(** ** Scanning twice *)

Lemma file_records_In entries name digest :
  In (name, File digest) entries -> In (mkMod name digest) (file_records entries).
Proof.
  induction entries as [|[n [d|es]] entries IH]; simpl; [done| |].
  - intros [[= -> ->]|Hin]; [by left | right; by apply IH].
  - intros [[=]|Hin]. by apply IH.
Qed.

Lemma installed_filter_file_records (P : ModRecord -> bool) entries name digest :
  NoDup (map fst entries) -> In (name, File digest) entries ->
  P (mkMod name digest) = true ->
  installed name (List.filter P (file_records entries))
  = Some (mkMod name digest).
Proof.
  unfold installed. intros Hnd Hin HP.
  induction entries as [|[n x] entries IH]; simpl; [done|].
  simpl in Hnd. apply NoDup_cons in Hnd as [Hn Hnd].
  destruct Hin as [[= -> ->]|Hin].
  - simpl. rewrite HP. simpl. by rewrite String.eqb_refl.
  - assert (String.eqb n name = false) as Hne.
    { apply String.eqb_neq. intros ->. apply Hn, list_elem_of_In.
      apply in_map_iff. by exists (name, File digest). }
    destruct x as [d|es]; simpl; [|by apply IH].
    destruct (P (mkMod n d)); simpl; [rewrite Hne|]; by apply IH.
Qed.

Lemma scanned_manifest_unchanged entries l1 :
  NoDup (map fst entries) ->
  forallb (fun r => existsSync entries (filename r)) l1 = true ->
  changed entries l1 = false ->
  unchanged entries (l1 ++ new_files entries l1) = true.
Proof.
  intros Hnd Hex Hch. unfold unchanged. apply andb_true_intro. split.
  - rewrite forallb_app, Hex. simpl. apply forallb_forall. intros r Hr.
    apply existsSync_In, file_records_names.
    unfold new_files in Hr. by apply filter_In in Hr as [? _].
  - apply forallb_forall. intros [name [digest|es]] Hin; simpl; [|done].
    fold (installed name (l1 ++ new_files entries l1)).
    rewrite installed_app.
    destruct (installed name l1) as [r|] eqn:Hl.
    + unfold changed in Hch.
      assert (existsb
                (fun r0 =>
                   match installed (filename r0) l1 with
                   | Some r' => negb (String.eqb (hash r0) (hash r'))
                   | None => false
                   end) (file_records entries) = false) as Hch' by exact Hch.
      destruct (String.eqb digest (hash r)) eqn:E; [done|].
      assert (existsb
                (fun r0 =>
                   match installed (filename r0) l1 with
                   | Some r' => negb (String.eqb (hash r0) (hash r'))
                   | None => false
                   end) (file_records entries) = true) as Habs.
      { apply existsb_exists. exists (mkMod name digest).
        split; [by apply file_records_In|]. simpl. by rewrite Hl, E. }
      congruence.
    + unfold new_files.
      rewrite (installed_filter_file_records _ entries name digest Hnd Hin).
      * simpl. apply String.eqb_refl.
      * simpl. by rewrite Hl.
Qed.

(** X14: scanning twice.  For a directory as [readdir] lists it and a
    manifest in which no two neighbours are both without their file: if a
    scan runs to its end, a second scan of the same directory runs to its
    end as well, publishes nothing and leaves the manifest as the first
    scan made it. *)
Theorem second_scan_is_quiet (entries : list (string * node)) (mc mc' : Mc) :
  NoDup (map fst entries) ->
  no_adjacent_missing entries (mods mc) = true ->
  scanForNewMods entries mc = Ok mc' ->
  exists mc'',
    scanForNewMods entries mc' = Ok mc''
    /\ emitted mc'' = emitted mc'
    /\ mods mc'' = mods mc'.
Proof.
  intros Hnd Hadj Hscan.
  pose proof (deletion_loop_no_adjacent (S (length (mods mc))) entries []
                (mods mc) [] (Nat.lt_succ_diag_r _) Hadj) as Hdel.
  simpl in Hdel. unfold scanForNewMods in Hscan.
  rewrite (scan_passes_outcome entries (mods mc) _ _ Hnd Hdel) in Hscan.
  destruct (changed entries _) eqn:Hch; [done|]. injection Hscan as <-.
  eexists. split.
  - apply unchanged_scan.
    match goal with
    | |- context [scan_finish ?q ?m] =>
        destruct (scan_finish_spec q m) as (_ & _ & -> & _)
    end.
    simpl. apply scanned_manifest_unchanged; [done | | done].
    apply forallb_forall. intros r Hr. by apply filter_In in Hr as [_ ?].
  - match goal with
    | |- context [scan_finish [] ?m] =>
        destruct (scan_finish_spec [] m) as (He & _ & Hm & _)
    end.
    rewrite He, Hm. simpl. by rewrite app_nil_r.
Qed.

Lemma second_scan_is_quiet_witness :
  NoDup (map fst [("a.jar", File "H1"); ("c.jar", File "H3")])
  /\ no_adjacent_missing [("a.jar", File "H1"); ("c.jar", File "H3")]
       (mods (example_Mc [mkMod "a.jar" "H1"; mkMod "b.jar" "H2"])) = true
  /\ exists mc'',
       scanForNewMods [("a.jar", File "H1"); ("c.jar", File "H3")]
         (scan_finish
            [mkModEvent (mkMod "b.jar" "H2") "modDeletion";
             mkModEvent (mkMod "c.jar" "H3") "modAddition"]
            (set_mods [mkMod "a.jar" "H1"; mkMod "c.jar" "H3"]
               (example_Mc [mkMod "a.jar" "H1"; mkMod "b.jar" "H2"])))
       = Ok mc''
       /\ emitted mc''
          = [("modAddition", PMods [mkMod "c.jar" "H3"]);
             ("modDeletion", PMods [mkMod "b.jar" "H2"])]
       /\ mods mc'' = [mkMod "a.jar" "H1"; mkMod "c.jar" "H3"].
Proof.
  assert (NoDup (map fst [("a.jar", File "H1"); ("c.jar", File "H3")]))
    as Hnd by (by compute_done).
  split; [exact Hnd|]. split; [reflexivity|].
  exact (second_scan_is_quiet [("a.jar", File "H1"); ("c.jar", File "H3")]
           (example_Mc [mkMod "a.jar" "H1"; mkMod "b.jar" "H2"])
           (scan_finish
              [mkModEvent (mkMod "b.jar" "H2") "modDeletion";
               mkModEvent (mkMod "c.jar" "H3") "modAddition"]
              (set_mods [mkMod "a.jar" "H1"; mkMod "c.jar" "H3"]
                 (example_Mc [mkMod "a.jar" "H1"; mkMod "b.jar" "H2"])))
           Hnd eq_refl eq_refl).
Defined.

(** Without the condition on neighbours the second scan is not quiet: of
    two records without their files the first scan removes one and the
    second scan the other. *)
Example second_scan_reports_skipped_record :
  exists mc' mc'',
    scanForNewMods [] (example_Mc [mkMod "a.jar" "H1"; mkMod "b.jar" "H2"])
    = Ok mc'
    /\ scanForNewMods [] mc' = Ok mc''
    /\ emitted mc''
       = [("modDeletion", PMods [mkMod "a.jar" "H1"]);
          ("modDeletion", PMods [mkMod "b.jar" "H2"])]
    /\ mods mc'' = [].
Proof. eexists. eexists. by split_and!. Qed.

(** ** [deleteFolderRecursive] *)

Lemma append_assoc (a b c : string) :
  ((a ++ b) ++ c = a ++ b ++ c)%string.
Proof.
  induction a as [|x a IH]; [done|].
  change (String x ((a ++ b) ++ c) = String x (a ++ b ++ c))%string.
  by rewrite IH.
Qed.

Lemma within_below dir file path :
  within (dir ++ "/" ++ file) path -> within dir path.
Proof.
  intros [->|[rest ->]]; right.
  - by exists file.
  - exists (file ++ "/" ++ rest)%string.
    by rewrite !append_assoc.
Qed.

(** X15: [deleteFolderRecursive] stays inside the directory it is given and
    removes every node once.  Whenever it returns, every call it made is an
    [unlinkSync] or an [rmdirSync] of the directory itself or of a path
    below it; there is one [unlinkSync] for each regular file of the tree
    and one [rmdirSync] for each directory; and nothing is left. *)
Theorem deleteFolderRecursive_calls (n : node) :
  forall path left_ calls,
    deleteFolderRecursive path n = Ok (left_, calls) ->
    left_ = None
    /\ Forall (fun c => (is_unlink c || is_rmdir c = true)
                        /\ within path (call_path c)) calls
    /\ length (List.filter is_unlink calls) = count_files n
    /\ length (List.filter is_rmdir calls) = count_dirs n.
Proof.
  induction n as [digest|entries IH] using node_tree_ind;
    intros path left_ calls; [done|].
  simpl.
  match goal with
  | |- context [bind (?f entries) _] => set (forEach := f)
  end.
  match goal with
  | |- context [S (?f entries)] => set (dirs := f)
  end.
  match goal with
  | |- context [_ = ?f entries] => set (files := f)
  end.
  assert (forall remaining calls',
            forEach entries = Ok (remaining, calls') ->
            remaining = []
            /\ Forall (fun c => (is_unlink c || is_rmdir c = true)
                                /\ within path (call_path c)) calls'
            /\ length (List.filter is_unlink calls') = files entries
            /\ length (List.filter is_rmdir calls') = dirs entries) as Hall.
  { clear left_ calls.
    induction IH as [|[file child] es Hchild _ IHes]; intros remaining calls'.
    - simpl. by intros [= <- <-].
    - simpl in Hchild. simpl forEach.
      destruct child as [digest|sub].
      + simpl. destruct (forEach es) as [[rest c2]| |]; [|done|done].
        simpl. intros [= <- <-].
        destruct (IHes rest c2 eq_refl) as (-> & Hc2 & Hf & Hd).
        split_and!; [done | | by simpl; rewrite Hf | done].
        constructor; [|done]. split; [done|]. right. by exists file.
      + destruct (deleteFolderRecursive (path ++ "/" ++ file) (Dir sub))
          as [[rem c1]| |] eqn:E; [|done|done].
        destruct (Hchild _ _ _ E) as (-> & Hc1 & Hf1 & Hd1).
        cbn [bind]. destruct (forEach es) as [[rest c2]| |]; [|done|done].
        cbn [bind]. intros [= <- <-].
        destruct (IHes rest c2 eq_refl) as (-> & Hc2 & Hf & Hd).
        split_and!; [done | | |].
        * apply Forall_app. split; [|done].
          eapply Forall_impl; [exact Hc1|].
          intros c [? ?]. split; [done|]. by eapply within_below.
        * rewrite List.filter_app, length_app, Hf1, Hf. done.
        * rewrite List.filter_app, length_app, Hd1, Hd. done. }
  destruct (forEach entries) as [[remaining calls']| |]; [|done|done].
  destruct (Hall remaining calls' eq_refl) as (-> & Hc & Hf & Hd).
  simpl. intros [= <- <-]. split_and!; [done | | |].
  - apply Forall_app. split; [done|]. constructor; [|done].
    split; [done|]. by left.
  - rewrite List.filter_app, length_app, Hf. simpl. lia.
  - rewrite List.filter_app, length_app, Hd. simpl. lia.
Qed.

Lemma deleteFolderRecursive_calls_witness :
  deleteFolderRecursive "/srv/mc/world"
    (Dir [("level.dat", File "0a1b");
          ("region", Dir [("r.0.0.mca", File "2c3d")])])
  = Ok (None,
        [UnlinkSync "/srv/mc/world/level.dat";
         UnlinkSync "/srv/mc/world/region/r.0.0.mca";
         RmdirSync "/srv/mc/world/region"; RmdirSync "/srv/mc/world"])
  /\ Forall (fun c => (is_unlink c || is_rmdir c = true)
                      /\ within "/srv/mc/world" (call_path c))
       [UnlinkSync "/srv/mc/world/level.dat";
        UnlinkSync "/srv/mc/world/region/r.0.0.mca";
        RmdirSync "/srv/mc/world/region"; RmdirSync "/srv/mc/world"].
Proof.
  split; [reflexivity|].
  destruct (deleteFolderRecursive_calls
              (Dir [("level.dat", File "0a1b");
                    ("region", Dir [("r.0.0.mca", File "2c3d")])])
              "/srv/mc/world" None
              [UnlinkSync "/srv/mc/world/level.dat";
               UnlinkSync "/srv/mc/world/region/r.0.0.mca";
               RmdirSync "/srv/mc/world/region"; RmdirSync "/srv/mc/world"]
              eq_refl) as (_ & Hall & _).
  exact Hall.
Defined.

(** ** The event listeners *)

Lemma populate_one listener :
  forall levents events,
    fold_left
      (fun events levent =>
         on levent
           (fun data_ =>
              sendEvent (listener_type listener) (listener_uri listener)
                (levent, data_))
           events)
      levents events
    = events
      ++ map (fun levent =>
                (levent,
                 fun data_ =>
                   sendEvent (listener_type listener) (listener_uri listener)
                     (levent, data_)))
           levents.
Proof.
  induction levents as [|ev levents IH]; intros events; simpl.
  - by rewrite app_nil_r.
  - rewrite IH. unfold on. by rewrite <- app_assoc.
Qed.

Lemma populateEvents_app eventListeners :
  forall events,
    populateEvents eventListeners events
    = events ++ populateEvents eventListeners [].
Proof.
  unfold populateEvents.
  induction eventListeners as [|l ls IH]; intros events; simpl.
  - by rewrite app_nil_r.
  - rewrite IH. rewrite (IH (fold_left _ _ [])).
    rewrite !populate_one. simpl. by rewrite app_assoc.
Qed.

Lemma emit_to_app e1 e2 name arg :
  emit_to (e1 ++ e2) name arg = emit_to e1 name arg ++ emit_to e2 name arg.
Proof. unfold emit_to. by rewrite List.filter_app, map_app. Qed.

Lemma emit_to_one listener name arg :
  forall levents,
    emit_to
      (map (fun levent =>
              (levent,
               fun data_ =>
                 sendEvent (listener_type listener) (listener_uri listener)
                   (levent, data_)))
         levents) name arg
    = map (fun _ =>
             sendEvent (listener_type listener) (listener_uri listener)
               (name, arg))
        (List.filter (fun levent => String.eqb levent name) levents).
Proof.
  unfold emit_to. induction levents as [|ev levents IH]; simpl; [done|].
  destruct (String.eqb ev name) eqn:E; simpl; [|done].
  apply String.eqb_eq in E as ->. by rewrite IH.
Qed.

Lemma emit_to_populated eventListeners name arg :
  emit_to (populateEvents eventListeners []) name arg
  = flat_map
      (fun listener =>
         map (fun _ =>
                sendEvent (listener_type listener) (listener_uri listener)
                  (name, arg))
           (List.filter (fun levent => String.eqb levent name)
              (listener_events listener)))
      eventListeners.
Proof.
  induction eventListeners as [|l ls IH]; [done|].
  unfold populateEvents. simpl. fold (populateEvents ls).
  rewrite populateEvents_app, populate_one, emit_to_app, IH. simpl.
  by rewrite emit_to_one.
Qed.

(** X16: who hears an event.  After [populateEvents] on a fresh emitter,
    emitting an event calls [sendEvent] once for each time the name of the
    event stands in the [events] of a configured listener, in the order of
    the configuration, with the body [{event, data}].  So every POST goes
    to the URI of a listener of type [webhook] that is subscribed to the
    event, and carries that event; a listener of another type only gets a
    warning, and only when it is subscribed. *)
Theorem events_reach_subscribed_webhooks (eventListeners : list Listener)
    (name : string) (arg : payload) :
  emit_to (populateEvents eventListeners []) name arg
  = flat_map
      (fun listener =>
         map (fun _ =>
                sendEvent (listener_type listener) (listener_uri listener)
                  (name, arg))
           (List.filter (fun levent => String.eqb levent name)
              (listener_events listener)))
      eventListeners
  /\ (forall url body,
        In (Post url body) (emit_to (populateEvents eventListeners []) name arg) ->
        body = (name, arg)
        /\ exists listener,
             In listener eventListeners
             /\ listener_type listener = "webhook"
             /\ listener_uri listener = url
             /\ In name (listener_events listener))
  /\ (forall type_,
        In (Warn type_) (emit_to (populateEvents eventListeners []) name arg) ->
        type_ <> "webhook"
        /\ exists listener,
             In listener eventListeners
             /\ listener_type listener = type_
             /\ In name (listener_events listener)).
Proof.
  rewrite emit_to_populated. split; [done|].
  split.
  - intros url body Hin. apply in_flat_map in Hin as (l & Hl & Hin).
    apply in_map_iff in Hin as (ev & Hsend & Hev).
    apply filter_In in Hev as [Hev ->%String.eqb_eq].
    unfold sendEvent in Hsend.
    destruct (String.eqb (listener_type l) "webhook") eqn:E; [|done].
    injection Hsend as <- <-. apply String.eqb_eq in E.
    split; [done|]. by exists l.
  - intros type_ Hin. apply in_flat_map in Hin as (l & Hl & Hin).
    apply in_map_iff in Hin as (ev & Hsend & Hev).
    apply filter_In in Hev as [Hev ->%String.eqb_eq].
    unfold sendEvent in Hsend.
    destruct (String.eqb (listener_type l) "webhook") eqn:E; [done|].
    injection Hsend as <-. apply String.eqb_neq in E.
    split; [done|]. by exists l.
Qed.

(** X17: [populateEvents] adds listeners and never replaces them.  On an
    emitter that has handlers already, an event is delivered to those first
    and then as on a fresh emitter; so after two calls of [populateEvents]
    with the same configuration and no reset in between, every delivery is
    made twice. *)
Theorem populateEvents_accumulates (eventListeners : list Listener)
    (events : EventEmitter) (name : string) (arg : payload) :
  emit_to (populateEvents eventListeners events) name arg
  = emit_to events name arg
    ++ emit_to (populateEvents eventListeners []) name arg
  /\ emit_to
       (populateEvents eventListeners (populateEvents eventListeners []))
       name arg
     = emit_to (populateEvents eventListeners []) name arg
       ++ emit_to (populateEvents eventListeners []) name arg.
Proof.
  split.
  - by rewrite populateEvents_app, emit_to_app.
  - by rewrite (populateEvents_app _ (populateEvents _ _)), emit_to_app.
Qed.

(** The configuration of the repository, with a listener of an unknown type
    added. *)
Example events_of_the_configuration :
  let cfg :=
    [mkListener "webhook" "https://your-domain.com:port/url"
       ["status"; "modAddition"; "modDeletion"; "modUpdated"; "versionChange"];
     mkListener "email" "ops@your-domain.com" ["status"]] in
  emit_to (populateEvents cfg []) "status" (PString "up")
  = [Post "https://your-domain.com:port/url" ("status", PString "up");
     Warn "email"]
  /\ emit_to (populateEvents cfg []) "console" (PArray []) = []
  /\ emit_to (populateEvents cfg []) "modUpdated" (PMods [])
     = [Post "https://your-domain.com:port/url" ("modUpdated", PMods [])].
Proof. by split_and!. Qed.

(** ** The manifest file *)

Lemma unescape_escape c rest :
  unescape (JSON.escape c ++ rest) = Some (c, rest).
Proof.
  destruct c as [[] [] [] [] [] [] [] []]; reflexivity.
Qed.

Lemma unescape_dquote rest :
  unescape (String (ascii_of_nat 34) rest) = None.
Proof. reflexivity. Qed.

Lemma append_cons c a b : (String c a ++ b = String c (a ++ b))%string.
Proof. reflexivity. Qed.

Lemma append_nil_l a : (EmptyString ++ a = a)%string.
Proof. reflexivity. Qed.

(** Strings are brought to the form [String c1 (String c2 (... ++ rest))]. *)
Ltac string_norm :=
  unfold JSON.of_mod, JSON.quote, JSON.dquote, Str.one;
  cbn [JSON.quote_body JSON.join map];
  rewrite ?append_assoc, ?append_cons, ?append_nil_l.

Ltac string_norm_in H :=
  unfold JSON.of_mod, JSON.quote, JSON.dquote, Str.one in H;
  cbn [JSON.quote_body JSON.join map] in H;
  rewrite ?append_assoc, ?append_cons, ?append_nil_l in H.

Lemma quote_body_inj :
  forall s1 s2 r1 r2,
    (JSON.quote_body s1 ++ String (ascii_of_nat 34) r1
     = JSON.quote_body s2 ++ String (ascii_of_nat 34) r2)%string ->
    s1 = s2 /\ r1 = r2.
Proof.
  induction s1 as [|c1 s1 IH]; intros [|c2 s2] r1 r2;
    cbn [JSON.quote_body]; rewrite ?append_nil_l, ?append_assoc.
  - by intros [= ->].
  - intros H%(f_equal unescape).
    by rewrite unescape_escape, unescape_dquote in H.
  - intros H%(f_equal unescape).
    by rewrite unescape_escape, unescape_dquote in H.
  - intros H%(f_equal unescape).
    rewrite !unescape_escape in H. injection H as -> H.
    by apply IH in H as [-> ->].
Qed.

Lemma of_mod_inj m1 m2 r1 r2 :
  (JSON.of_mod m1 ++ r1 = JSON.of_mod m2 ++ r2)%string ->
  m1 = m2 /\ r1 = r2.
Proof.
  intros H. string_norm_in H.
  change (JSON.quote_body "filename") with "filename" in H.
  change (JSON.quote_body "hash") with "hash" in H.
  rewrite ?append_assoc, ?append_cons, ?append_nil_l in H.
  injection H as H. apply quote_body_inj in H as [Hf H].
  injection H as H. apply quote_body_inj in H as [Hh H].
  injection H as ->.
  destruct m1, m2; simpl in *; by subst.
Qed.

Lemma of_mod_brace m rest :
  exists t, (JSON.of_mod m ++ rest = String "{" t)%string.
Proof. string_norm. by eexists. Qed.

(** What follows a record in the array: the end, or a comma and the
    others. *)
Lemma join_cons m (l : list ModRecord) :
  (JSON.join (map JSON.of_mod (m :: l)) ++ "]"
   = JSON.of_mod m
     ++ match l with
        | [] => "]"
        | _ :: _ => String "," (JSON.join (map JSON.of_mod l) ++ "]")
        end)%string.
Proof.
  destruct l as [|m' l]; [done|].
  cbn [map JSON.join]. by rewrite !append_assoc.
Qed.

Lemma join_inj :
  forall l1 l2,
    (JSON.join (map JSON.of_mod l1) ++ "]"
     = JSON.join (map JSON.of_mod l2) ++ "]")%string ->
    l1 = l2.
Proof.
  induction l1 as [|m1 l1 IH]; intros [|m2 l2]; [done | | |].
  - rewrite join_cons. destruct (of_mod_brace m2
      match l2 with
      | [] => "]"
      | _ :: _ => String "," (JSON.join (map JSON.of_mod l2) ++ "]")
      end%string) as [t ->]. done.
  - rewrite join_cons. destruct (of_mod_brace m1
      match l1 with
      | [] => "]"
      | _ :: _ => String "," (JSON.join (map JSON.of_mod l1) ++ "]")
      end%string) as [t ->]. done.
  - rewrite !join_cons. intros [-> Hrest]%of_mod_inj. f_equal. apply IH.
    destruct l1 as [|m3 l1], l2 as [|m4 l2]; try done.
    by injection Hrest as Hrest.
Qed.

(** X18: the manifest file determines the manifest.  Two manifests that
    [JSON.stringify] writes as the same text are the same manifest, record
    by record and in the same order, whatever characters the file names and
    digests hold (quotes, backslashes and control characters included). *)
Theorem stringify_injective (l1 l2 : list ModRecord) :
  JSON.stringify l1 = JSON.stringify l2 -> l1 = l2.
Proof.
  unfold JSON.stringify. simpl. intros [= H]. by apply join_inj.
Qed.

Lemma stringify_injective_witness :
  JSON.stringify [mkMod "a.jar" "H1"] = JSON.stringify [mkMod "a.jar" "H1"]
  /\ [mkMod "a.jar" "H1"] = [mkMod "a.jar" "H1"].
Proof.
  split; [reflexivity|].
  exact (stringify_injective [mkMod "a.jar" "H1"] [mkMod "a.jar" "H1"] eq_refl).
Defined.

(** ** [removeWorld] and the life of the process *)

Lemma isPtyRunning_agrees s mc : pty_agrees s mc -> isPtyRunning mc = live s.
Proof.
  unfold pty_agrees, isPtyRunning. destruct (live s).
  - by intros [-> _].
  - by intros ->.
Qed.

(** X19: [removeWorld] and the life of the process.  After any history that
    the lifecycle allows and in which every exit handler ran to its end (it
    found the log file it unlinks), a call with a non-empty name is refused
    with reason [PTY], and touches nothing, exactly while the process is
    live (from the spawn on, before the ready signal too, until such an
    exit); in the stopped states a world directory is deleted: the calls
    made on the disk are exactly those of [deleteFolderRecursive] on the
    world path, the last of them removes the world directory itself,
    nothing is left at the path, and the call succeeds. *)
Theorem removeWorld_after_history (tr : list input) (dir forge : string)
    (loaded : list ModRecord) (s : ServerLifecycleState)
    (name : string) (entries : list (string * node)) :
  spec_lifecycle tr Stopped = Some s ->
  exits_find_log tr = true ->
  name <> EmptyString ->
  exists mc,
    run tr (new_Mc dir forge loaded) = Ok mc
    /\ if live s
       then removeWorld name (Some (Dir entries)) mc
            = Ok (mkResponse false (Some "PTY"), Some (Dir entries), mc)
       else exists calls,
              deleteFolderRecursive (path_join (minecraft_dir mc) name)
                (Dir entries)
              = Ok (None,
                    calls ++ [RmdirSync (path_join (minecraft_dir mc) name)])
              /\ removeWorld name (Some (Dir entries)) mc
                 = Ok (mkResponse true None, None,
                       fs_do_all
                         (calls
                            ++ [RmdirSync (path_join (minecraft_dir mc) name)])
                         mc).
Proof.
  intros Hspec Hfinds Hname.
  destruct (run_agrees tr Stopped s (new_Mc dir forge loaded))
    as (mc & Hrun & Hinv); [done | done | done |].
  exists mc. split; [done|].
  apply isPtyRunning_agrees in Hinv. unfold removeWorld.
  assert (truthy (JString name) = true) as -> by (by destruct name).
  rewrite Hinv. destruct (live s); [done|]. simpl negb. cbv iota.
  destruct (deleteFolderRecursive_Dir (Dir entries)
              (path_join (minecraft_dir mc) name) eq_refl) as [calls Hcalls].
  exists calls. split; [exact Hcalls|]. by rewrite Hcalls.
Qed.

Lemma removeWorld_after_history_witness :
  spec_lifecycle [Start None None] Stopped = Some Starting
  /\ exits_find_log [Start None None] = true
  /\ "world" <> EmptyString
  /\ exists mc,
       run [Start None None] (example_Mc []) = Ok mc
       /\ removeWorld "world" (Some (Dir [("level.dat", File "0a1b")])) mc
          = Ok (mkResponse false (Some "PTY"),
                Some (Dir [("level.dat", File "0a1b")]), mc).
Proof.
  split; [reflexivity|]. split; [reflexivity|]. split; [discriminate|].
  exact (removeWorld_after_history [Start None None]
           "/home/rylor/Code/node-mc/minecraft" "1.8.9-11.15.1.1752" []
           Starting "world" [("level.dat", File "0a1b")] eq_refl eq_refl
           ltac:(discriminate)).
Defined.
